(** * SigmaEngine: a shallow embedding of [engine.py]

    The engine is a small pygame-based 2D game engine.  This development
    embeds the parts of [engine.py] that its specification makes
    checkable statements about: the scene's entity traversal, the
    animation clock, the physics integrator, the collision shapes, the
    button state machine, the vertical layout and the sprite blit.

    Conventions of the embedding.
    - Python [float] is IEEE-754 binary64, so it is Rocq's primitive
      [float]; every arithmetic operation below is the rounded machine
      operation, in the order the source performs it.  Fields annotated
      [float] in the source are floats here, also where the constructor's
      default is the integer literal [0] or [5].
    - Python exceptions are values of [PyExc], carried by [result].
    - Objects that the source shares by reference (an entity inside its
      physics body, an animation inside the sprite's dictionary) are
      stored inside their owner and written back on every mutation.
    - pygame itself (surfaces, rectangles' collision test, the mouse) is
      outside the repository; its services are parameters. *)

From Stdlib Require Import ZArith QArith Qabs Qpower Floats Lia.
From stdpp Require Import base option list strings gmap.

(* Decimal literals such as 0.1 and 9.81 denote the nearest binary64
   value, as they do in Python. *)
#[global] Set Warnings "-inexact-float".

Local Open Scope Z_scope.

(** ** Python runtime: exceptions, [int()], integer division *)

Module Py.

Inductive PyExc : Set :=
| NotImplementedError
| ZeroDivisionError
| ValueError
| OverflowError
| IndexError
| KeyError
| TypeError.

Inductive result (A : Type) : Type :=
| Ok (a : A)
| Raise (e : PyExc).
Arguments Ok {A} a.
Arguments Raise {A} e.

Definition bind {A B : Type} (m : result A) (k : A -> result B) : result B :=
  match m with
  | Ok a => k a
  | Raise e => Raise e
  end.

(** [int(f)] for a float: truncation toward zero; [int(nan)] raises
    ValueError and [int(inf)] raises OverflowError.  A finite float is
    [(-1)^s * m * 2^e]; shifting the mantissa by [e] (to the right when
    [e] is negative) drops the fractional bits. *)
Definition int_of_float (f : float) : result Z :=
  match Prim2SF f with
  | S754_zero _ => Ok 0
  | S754_infinity _ => Raise OverflowError
  | S754_nan => Raise ValueError
  | S754_finite s m e =>
      let mag := Z.shiftl (Z.pos m) e in
      Ok (if s then - mag else mag)
  end.

(** [float(n)] for the small non-negative integers the engine converts
    (list lengths, texture sizes). *)
Definition float_of_Z (n : Z) : float := PrimFloat.of_uint63 (Uint63.of_Z n).

(** [a / b] on floats raises on a zero divisor (of either sign). *)
Definition truediv (a b : float) : result float :=
  if PrimFloat.eqb b 0%float then Raise ZeroDivisionError else Ok (a / b)%float.

(** [a // b] and [a % b] on ints: floor division, remainder with the sign
    of the divisor, which is what [Z.div] and [Z.modulo] compute. *)
Definition floordiv (a b : Z) : result Z :=
  if Z.eqb b 0 then Raise ZeroDivisionError else Ok (a / b).

Definition pymod (a b : Z) : result Z :=
  if Z.eqb b 0 then Raise ZeroDivisionError else Ok (a mod b).

(** The exact rational value of a finite float. *)
Definition Q_of_float (f : float) : option Q :=
  match Prim2SF f with
  | S754_zero _ => Some 0%Q
  | S754_finite s m e =>
      let q := (inject_Z (Z.pos m) * Qpower 2 e)%Q in
      Some (if s then Qopp q else q)
  | _ => None
  end.

(** A decoded float that is not below zero: anything but a negative
    number or minus infinity. *)
Definition sf_not_negative (v : spec_float) : Prop :=
  match v with
  | S754_infinity true | S754_finite true _ _ => False
  | _ => True
  end.

(** Two ways to turn a rational into an integer.  [n] is the
    truncation of [q] when it is [q] with its fractional part dropped:
    same sign, and magnitude the integer part of [q]'s magnitude.  [n]
    is a nearest integer of [q] when it is at most one half away. *)
Definition truncation (q : Q) (n : Z) : Prop :=
  (Qabs (inject_Z n) <= Qabs q)%Q
  /\ (Qabs q < Qabs (inject_Z n) + 1)%Q
  /\ (0 <= q * inject_Z n)%Q.

Definition nearest (q : Q) (n : Z) : Prop :=
  (Qabs (q - inject_Z n) <= 1 # 2)%Q.

End Py.

Import Py.

(** [result] is the error monad; stdpp's [x ← m; k] is its bind. *)
#[global] Instance result_ret : MRet result := @Ok.
#[global] Instance result_bind : MBind result :=
  fun A B k m => Py.bind m k.

(** ** Scene: the entity list and its traversal *)

Module SceneGraph.

(** An entity is a Python object; [in] and [list.remove] compare with
    [==], which for these classes is object identity. *)
Definition Entity := nat.

Section Traversal.
(** Everything besides the entity list that callbacks can read or
    write (the entities' own fields, the screen, counters ...). *)
Context {World : Type}.

Record Scene := mkScene {
  entities : list Entity;
  world : World
}.

(** [Scene.add_entity]: append. *)
Definition add_entity (e : Entity) (s : Scene) : Scene :=
  mkScene (entities s ++ [e]) (world s).

(** [list.remove(x)]: drop the first element equal to [x]. *)
Fixpoint list_remove (e : Entity) (l : list Entity) : list Entity :=
  match l with
  | [] => []
  | x :: l' => if Nat.eqb x e then l' else x :: list_remove e l'
  end.

(** [Scene.remove_entity]: guarded by a membership test. *)
Definition remove_entity (e : Entity) (s : Scene) : Scene :=
  if existsb (Nat.eqb e) (entities s)
  then mkScene (list_remove e (entities s)) (world s)
  else s.

(** The body of an entity's [update] (for the frame's delta time) or
    [render] (for the frame's screen): it may do anything to the
    scene, including calling [add_entity] and [remove_entity]. *)
Definition Callback := Entity -> Scene -> Scene.

(** [for entity in self.entities: entity.cb(...)].  Python's list
    iterator keeps an index into the live list: at each step it stops
    if the index has reached the current length, otherwise it yields
    the element now at that index and advances.  A callback that keeps
    appending makes the loop run forever, hence the fuel.  The result
    carries the entities whose callback was invoked, in order. *)
Fixpoint for_each (cb : Callback) (fuel : nat) (i : nat) (s : Scene)
         (visited : list Entity) : option (list Entity * Scene) :=
  match fuel with
  | O => None
  | S fuel' =>
      match entities s !! i with
      | None => Some (visited, s)
      | Some e => for_each cb fuel' (S i) (cb e s) (visited ++ [e])
      end
  end.

(** [Scene.update(delta_time)]: [on_update e dt] is [e.update(dt)]. *)
Definition update (on_update : Entity -> float -> Scene -> Scene)
           (fuel : nat) (delta_time : float) (s : Scene)
  : option (list Entity * Scene) :=
  for_each (fun e => on_update e delta_time) fuel 0%nat s [].

(** [Scene.render(screen)]; the screen lives in the world. *)
Definition render (on_render : Callback) (fuel : nat) (s : Scene)
  : option (list Entity * Scene) :=
  for_each on_render fuel 0%nat s [].

(** A callback is list-preserving when it leaves the scene's entity
    list as it found it, and appending when all it does to the list is
    add entities at its end. *)
Definition list_preserving (cb : Callback) : Prop :=
  forall e s, entities (cb e s) = entities s.

Definition appending (cb : Callback) : Prop :=
  forall e s, exists extra, entities (cb e s) = entities s ++ extra.

End Traversal.
Arguments Scene : clear implicits.
Arguments Callback : clear implicits.

(** Three concrete behaviours over a world that counts callback runs. *)
Definition counting : Entity -> Scene nat -> Scene nat :=
  fun _ s => mkScene (entities s) (S (world s)).

(** Entity 0 removes itself from the scene when updated. *)
Definition self_removing : Entity -> Scene nat -> Scene nat :=
  fun e s => if Nat.eqb e 0 then remove_entity e (counting e s) else counting e s.

(** Entity 0 spawns entity 7 into the scene when updated. *)
Definition spawning : Entity -> Scene nat -> Scene nat :=
  fun e s => if Nat.eqb e 0 then add_entity 7%nat (counting e s) else counting e s.

End SceneGraph.

(** ** Entity: the fields every game object carries *)

Module Core.

Record Entity := mkEntity {
  x : float;
  y : float;
  width : float;
  height : float;
  rotation : float;
  scale : float;
  visible : bool
}.

Definition set_x (v : float) (e : Entity) : Entity :=
  mkEntity v (y e) (width e) (height e) (rotation e) (scale e) (visible e).

Definition set_y (v : float) (e : Entity) : Entity :=
  mkEntity (x e) v (width e) (height e) (rotation e) (scale e) (visible e).

(** [Entity.__init__(x, y)]. *)
Definition new_entity (x0 y0 : float) : Entity :=
  mkEntity x0 y0 0 0 0 1 true.

(** A [pygame.Rect] built from integers (animation frames). *)
Record Rect := mkRect {
  rect_x : Z;
  rect_y : Z;
  rect_w : Z;
  rect_h : Z
}.

(** pygame: a rectangle is true when both its width and height are
    non-zero. *)
Definition rect_truthy (r : Rect) : bool :=
  negb (Z.eqb (rect_w r) 0) && negb (Z.eqb (rect_h r) 0).

(** A [pygame.Rect] stores its coordinates as C ints: an integer
    assigned to one of its attributes must fit in 32 signed bits. *)
Definition in_int32 (n : Z) : bool :=
  Z.leb (-2147483648) n && Z.leb n 2147483647.

(** [l[i]] for a Python list and an int index: negative indices count
    from the end; out of range raises IndexError. *)
Definition getitem {A : Type} (l : list A) (i : Z) : result A :=
  let n := Z.of_nat (length l) in
  let j := if Z.ltb i 0 then i + n else i in
  if Z.ltb j 0 then Raise IndexError
  else match l !! Z.to_nat j with
       | Some a => Ok a
       | None => Raise IndexError
       end.

(** [l[i] = v] for a literal index [i] of the source. *)
Definition setitem {A : Type} (l : list A) (i : nat) (v : A) : result (list A) :=
  if decide (i < length l)%nat then Ok (<[i := v]> l) else Raise IndexError.

End Core.

Import Core.

(** ** Sprite, Animation, AnimatedSprite *)

Module Sprites.

(** The pygame surface operations [Sprite.render] calls.  Those that
    pygame documents as raising return a [result]. *)
Class Pygame (Surface : Type) := {
  get_width : Surface -> Z;
  get_height : Surface -> Z;
  subsurface : Surface -> Rect -> result Surface;
  transform_scale : Surface -> Z -> Z -> result Surface;
  transform_rotate : Surface -> float -> result Surface;
  transform_flip : Surface -> bool -> bool -> result Surface;
  fill_mult : Surface -> Z * Z * Z -> result Surface;
  set_alpha : Surface -> Z -> result Surface
}.

Section Sprite.
Context {Surface : Type} `{Pygame Surface}.

Record Sprite := mkSprite {
  entity : Entity;
  texture_name : string;
  texture : option Surface;
  src_rect : option Rect;
  flip_x : bool;
  flip_y : bool;
  color_mod : Z * Z * Z;
  alpha : Z
}.

Definition set_src_rect (r : option Rect) (s : Sprite) : Sprite :=
  mkSprite (entity s) (texture_name s) (texture s) r
           (flip_x s) (flip_y s) (color_mod s) (alpha s).

(** What reaches the screen: [screen.blit(texture, dest_rect)] where
    [dest_rect] is the image's rectangle moved so that its center is
    the given point. *)
Record Blit := mkBlit {
  image : Surface;
  center : Z * Z
}.

(** Steps (1) to (5) of [Sprite.render], from the crop to the alpha. *)
Definition transformed (s : Sprite) (t : Surface) : result Surface :=
  t1 ← match src_rect s with
       | Some r => if rect_truthy r then subsurface t r else Ok t
       | None => Ok t
       end;
  t2 ← (if negb (PrimFloat.eqb (scale (entity s)) 1)
           || negb (PrimFloat.eqb (rotation (entity s)) 0)
        then
          scaled_width ← int_of_float (float_of_Z (get_width t1) * scale (entity s));
          scaled_height ← int_of_float (float_of_Z (get_height t1) * scale (entity s));
          t' ← transform_scale t1 scaled_width scaled_height;
          if negb (PrimFloat.eqb (rotation (entity s)) 0)
          then transform_rotate t' (rotation (entity s))
          else Ok t'
        else Ok t1);
  t3 ← (if flip_x s || flip_y s
        then transform_flip t2 (flip_x s) (flip_y s)
        else Ok t2);
  t4 ← fill_mult t3 (color_mod s);
  set_alpha t4 (alpha s).

(** [Sprite.render]: nothing is drawn for an invisible sprite or one
    without texture; otherwise the transformed image is blitted with
    its center at [(int(self.x), int(self.y))].  The pair is built
    first (both [int()] calls), then assigned to [dest_rect.center];
    pygame refuses the assignment with TypeError when a coordinate does
    not fit in a C int, and then nothing is blitted. *)
Definition render (s : Sprite) : result (option Blit) :=
  if negb (visible (entity s)) then Ok None
  else match texture s with
       | None => Ok None
       | Some t =>
           img ← transformed s t;
           cx ← int_of_float (x (entity s));
           cy ← int_of_float (y (entity s));
           if in_int32 cx && in_int32 cy
           then Ok (Some (mkBlit img (cx, cy)))
           else Raise TypeError
       end.

End Sprite.
Arguments Sprite : clear implicits.
Arguments Blit : clear implicits.

(** *** Animation *)

Record Animation := mkAnimation {
  sprite_sheet : string;
  frame_width : Z;
  frame_height : Z;
  frame_count : Z;
  frame_duration : float;
  frames : list Rect;
  current_frame : Z;
  time_accumulated : float;
  is_playing : bool;
  is_looping : bool
}.

Definition set_playback (cf : Z) (acc : float) (playing looping : bool)
           (a : Animation) : Animation :=
  mkAnimation (sprite_sheet a) (frame_width a) (frame_height a) (frame_count a)
              (frame_duration a) (frames a) cf acc playing looping.

(** The rectangle of frame [i] on a sheet with [frames_per_row] columns. *)
Definition frame_rect (frames_per_row fw fh i : Z) : result Rect :=
  col ← pymod i frames_per_row;
  row ← floordiv i frames_per_row;
  Ok (mkRect (col * fw) (row * fh) fw fh).

Fixpoint frame_rects (frames_per_row fw fh : Z) (idx : list Z) : result (list Rect) :=
  match idx with
  | [] => Ok []
  | i :: idx' =>
      r ← frame_rect frames_per_row fw fh i;
      rs ← frame_rects frames_per_row fw fh idx';
      Ok (r :: rs)
  end.

(** [Animation.__init__]; [sheet_width] is the width pygame reports for
    the loaded sprite sheet. *)
Definition new_animation (sheet : string) (sheet_width fw fh count : Z)
           (duration : float) : result Animation :=
  frames_per_row ← floordiv sheet_width fw;
  rects ← frame_rects frames_per_row fw fh (seqZ 0 count);
  Ok (mkAnimation sheet fw fh count duration rects 0 0 false true).

(** *** AnimatedSprite *)

Section AnimatedSprite.
Context {Surface : Type}.

Record AnimatedSprite := mkAnimatedSprite {
  sprite : Sprite Surface;
  animations : gmap string Animation;
  current_animation : option string
}.

(** [AnimatedSprite.play_animation]. *)
Definition play_animation (name : string) (loop : bool) (s : AnimatedSprite)
  : AnimatedSprite :=
  match animations s !! name with
  | Some a =>
      mkAnimatedSprite (sprite s)
        (<[name := set_playback 0 0 true loop a]> (animations s))
        (Some name)
  | None => s
  end.

(** A name is true in a condition unless it is [None] or empty. *)
Definition name_truthy (n : option string) : bool :=
  match n with
  | Some s => negb (String.eqb s "")
  | None => false
  end.

(** [AnimatedSprite.add_animation]. *)
Definition add_animation (name : string) (a : Animation) (s : AnimatedSprite)
  : AnimatedSprite :=
  let s1 := mkAnimatedSprite (sprite s) (<[name := a]> (animations s))
                             (current_animation s) in
  if name_truthy (current_animation s1) then s1 else play_animation name true s1.

(** The animation clock of [AnimatedSprite.update], on the active
    clip: accumulate, and on reaching the frame duration reset the
    accumulator and step the frame index, wrapping or clamping at
    [frame_count]. *)
Definition tick (delta_time : float) (a : Animation) : Animation :=
  let acc := (time_accumulated a + delta_time)%float in
  if PrimFloat.leb (frame_duration a) acc then
    let cf := current_frame a + 1 in
    if Z.leb (frame_count a) cf then
      if is_looping a
      then set_playback 0 0 (is_playing a) (is_looping a) a
      else set_playback (frame_count a - 1) 0 false (is_looping a) a
    else set_playback cf 0 (is_playing a) (is_looping a) a
  else set_playback (current_frame a) acc (is_playing a) (is_looping a) a.

(** [AnimatedSprite.update]. *)
Definition update (delta_time : float) (s : AnimatedSprite)
  : result AnimatedSprite :=
  match current_animation s with
  | None => Ok s
  | Some name =>
      if String.eqb name "" then Ok s
      else match animations s !! name with
           | None => Raise KeyError
           | Some anim =>
               if negb (is_playing anim) then Ok s
               else
                 let anim' := tick delta_time anim in
                 let anims' := <[name := anim']> (animations s) in
                 r ← getitem (frames anim') (current_frame anim');
                 Ok (mkAnimatedSprite (set_src_rect (Some r) (sprite s))
                                      anims' (current_animation s))
           end
  end.

(** Successive [update] calls, one per delta time.  The result lists
    the active clip's frame index after each call. *)
Definition active_frame (s : AnimatedSprite) : option Z :=
  name ← current_animation s;
  a ← animations s !! name;
  Some (current_frame a).

Fixpoint updates (dts : list float) (s : AnimatedSprite)
  : result (list (option Z) * AnimatedSprite) :=
  match dts with
  | [] => Ok ([], s)
  | dt :: dts' =>
      s1 ← update dt s;
      r ← updates dts' s1;
      Ok (active_frame s1 :: r.1, r.2)
  end.

(** [a] is the active clip of [s], under the name [name]. *)
Definition active (s : AnimatedSprite) (name : string) (a : Animation) : Prop :=
  current_animation s = Some name
  /\ name <> ""%string
  /\ animations s !! name = Some a.

(** A clip of four frames of a tenth of a second, looping and playing,
    in a state the constructor and [update] can produce: it has its
    four rectangles and its frame index is one of them. *)
Definition four_frame_loop (a : Animation) : Prop :=
  frame_duration a = 0.1%float
  /\ frame_count a = 4
  /\ is_looping a = true
  /\ is_playing a = true
  /\ length (frames a) = 4%nat
  /\ 0 <= current_frame a < 4.

(** One more than a frame index of a four-frame clip, 3 wrapping to 0. *)
Definition next_frame (cf : Z) : Z := if Z.eqb (cf + 1) 4 then 0 else cf + 1.

End AnimatedSprite.
Arguments AnimatedSprite : clear implicits.

(** *** Test doubles

    A surface known only by its size, for running [render] on concrete
    sprites: cropping and scaling give the requested size, the other
    operations keep it. *)
#[global] Instance size_surface : Pygame (Z * Z) := {
  get_width t := t.1;
  get_height t := t.2;
  subsurface _ r := Ok (rect_w r, rect_h r);
  transform_scale _ w h := Ok (w, h);
  transform_rotate t _ := Ok t;
  transform_flip t _ _ := Ok t;
  fill_mult t _ := Ok t;
  set_alpha t _ := Ok t
}.

(** A plain 32 by 32 sprite at the given position. *)
Definition plain_sprite (x0 y0 : float) : Sprite (Z * Z) :=
  mkSprite (new_entity x0 y0) "hero" (Some (32, 32)) None false false
           (255, 255, 255) 255.

(** An animated sprite with one four-frame clip of 0.1 s per frame on a
    128 pixel wide sheet, added with [add_animation] (which starts it). *)
Definition walk_clip : result Animation :=
  new_animation "walk.png" 128 32 32 4 0.1.

Definition walker : result (AnimatedSprite (Z * Z)) :=
  clip ← walk_clip;
  Ok (add_animation "walk" clip
        (mkAnimatedSprite (plain_sprite 0 0) ∅ None)).

End Sprites.

(** ** PhysicsBody *)

Module Physics.

(** [velocity] and [acceleration] are two-element Python lists, read
    and written by index. *)
Record PhysicsBody := mkBody {
  entity : Entity;
  velocity : list float;
  acceleration : list float;
  mass : float;
  gravity_scale : float;
  friction : float;
  restitution : float;
  is_static : bool
}.

(** [PhysicsBody.__init__(entity)]. *)
Definition new_body (e : Entity) : PhysicsBody :=
  mkBody e [0; 0]%float [0; 0]%float 1 1 0.1 0.5 false.

(** [l[i] += d] and [l[i] *= k]. *)
Definition iadd_item (l : list float) (i : nat) (d : float) : result (list float) :=
  v ← getitem l (Z.of_nat i);
  setitem l i (v + d)%float.

Definition imul_item (l : list float) (i : nat) (k : float) : result (list float) :=
  v ← getitem l (Z.of_nat i);
  setitem l i (v * k)%float.

(** [PhysicsBody.apply_force]. *)
Definition apply_force (force_x force_y : float) (b : PhysicsBody)
  : result PhysicsBody :=
  if is_static b then Ok b
  else
    ax ← truediv force_x (mass b);
    acc1 ← iadd_item (acceleration b) 0 ax;
    ay ← truediv force_y (mass b);
    acc2 ← iadd_item acc1 1 ay;
    Ok (mkBody (entity b) (velocity b) acc2 (mass b) (gravity_scale b)
               (friction b) (restitution b) (is_static b)).

(** [PhysicsBody.update], statement by statement. *)
Definition update (delta_time : float) (b : PhysicsBody) : result PhysicsBody :=
  if is_static b then Ok b
  else
    (* Apply gravity *)
    acc1 ← iadd_item (acceleration b) 1 (9.81 * gravity_scale b)%float;
    (* Update velocity *)
    a0 ← getitem acc1 0;
    vel1 ← iadd_item (velocity b) 0 (a0 * delta_time)%float;
    a1 ← getitem acc1 1;
    vel2 ← iadd_item vel1 1 (a1 * delta_time)%float;
    (* Apply friction *)
    vel3 ← imul_item vel2 0 (1 - friction b)%float;
    vel4 ← imul_item vel3 1 (1 - friction b)%float;
    (* Update position *)
    v0 ← getitem vel4 0;
    let e1 := set_x (x (entity b) + v0 * delta_time)%float (entity b) in
    v1 ← getitem vel4 1;
    let e2 := set_y (y e1 + v1 * delta_time)%float e1 in
    (* Reset acceleration *)
    Ok (mkBody e2 vel4 [0; 0]%float (mass b) (gravity_scale b)
               (friction b) (restitution b) (is_static b)).

(** The calls a game makes on a body, and a sequence of them. *)
Inductive Call :=
| Update (delta_time : float)
| ApplyForce (force_x force_y : float).

Definition call (c : Call) (b : PhysicsBody) : result PhysicsBody :=
  match c with
  | Update dt => update dt b
  | ApplyForce fx fy => apply_force fx fy b
  end.

Fixpoint calls (cs : list Call) (b : PhysicsBody) : result PhysicsBody :=
  match cs with
  | [] => Ok b
  | c :: cs' => b1 ← call c b; calls cs' b1
  end.

(** *** The integration step as the specification words it

    Five phases over the kinematic state: position, velocity and
    acceleration, each a pair of components. *)
Record Kinematic := mkKinematic {
  pos : float * float;
  vel : float * float;
  acc : float * float
}.

Definition add_gravity (gravity_scale : float) (k : Kinematic) : Kinematic :=
  mkKinematic (pos k) (vel k) ((acc k).1, (acc k).2 + 9.81 * gravity_scale)%float.

Definition integrate_velocity (dt : float) (k : Kinematic) : Kinematic :=
  mkKinematic (pos k)
              ((vel k).1 + (acc k).1 * dt, (vel k).2 + (acc k).2 * dt)%float
              (acc k).

Definition damp (friction : float) (k : Kinematic) : Kinematic :=
  mkKinematic (pos k)
              ((vel k).1 * (1 - friction), (vel k).2 * (1 - friction))%float
              (acc k).

Definition integrate_position (dt : float) (k : Kinematic) : Kinematic :=
  mkKinematic ((pos k).1 + (vel k).1 * dt, (pos k).2 + (vel k).2 * dt)%float
              (vel k) (acc k).

Definition reset_acceleration (k : Kinematic) : Kinematic :=
  mkKinematic (pos k) (vel k) (0, 0)%float.

Definition integration_spec (gravity_scale friction dt : float) (k : Kinematic)
  : Kinematic :=
  reset_acceleration
    (integrate_position dt
       (damp friction
          (integrate_velocity dt
             (add_gravity gravity_scale k)))).

(** The kinematic state a body (with well-formed two-element lists)
    stands for. *)
Definition kinematic (b : PhysicsBody) : option Kinematic :=
  match velocity b, acceleration b with
  | [vx; vy], [ax; ay] => Some (mkKinematic (x (entity b), y (entity b)) (vx, vy) (ax, ay))
  | _, _ => None
  end.

End Physics.

(** ** Collision shapes *)

Module Collision.

(** The four arguments of a [pygame.Rect(left, top, width, height)]
    call made by [get_bounds]. *)
Record Bounds := mkBounds {
  left : float;
  top : float;
  bwidth : float;
  bheight : float
}.

(** [CollisionShape] and its two subclasses.  [Shape] is the base class
    instantiated directly. *)
Inductive CollisionShape :=
| Shape (entity : Entity) (offset_x offset_y : float)
| BoxCollider (entity : Entity) (offset_x offset_y : float) (width height : float)
| CircleCollider (entity : Entity) (offset_x offset_y : float) (radius : float).

Definition entity (s : CollisionShape) : Entity :=
  match s with
  | Shape e _ _ | BoxCollider e _ _ _ _ | CircleCollider e _ _ _ => e
  end.

(** Assigning [offset_x] and [offset_y]. *)
Definition set_offset (ox oy : float) (s : CollisionShape) : CollisionShape :=
  match s with
  | Shape e _ _ => Shape e ox oy
  | BoxCollider e _ _ w h => BoxCollider e ox oy w h
  | CircleCollider e _ _ r => CircleCollider e ox oy r
  end.

(** [math.sqrt]: ValueError on a negative argument. *)
Definition math_sqrt (f : float) : result float :=
  if PrimFloat.ltb f 0 then Raise ValueError else Ok (PrimFloat.sqrt f).

(** [get_bounds]. *)
Definition get_bounds (s : CollisionShape) : result Bounds :=
  match s with
  | Shape _ _ _ => Raise NotImplementedError
  | BoxCollider e ox oy w h =>
      Ok (mkBounds (x e + ox - w / 2) (y e + oy - h / 2) w h)%float
  | CircleCollider e ox oy r =>
      Ok (mkBounds (x e + ox - r) (y e + oy - r) (r * 2) (r * 2))%float
  end.

Section CollidesWith.
(** pygame's [Rect.colliderect]. *)
Variable colliderect : Bounds -> Bounds -> bool.

(** [self.collides_with(other)]. *)
Definition collides_with (self other : CollisionShape) : result bool :=
  match self with
  | Shape _ _ _ => Raise NotImplementedError
  | BoxCollider _ _ _ _ _ =>
      match other with
      | BoxCollider _ _ _ _ _ =>
          b1 ← get_bounds self;
          b2 ← get_bounds other;
          Ok (colliderect b1 b2)
      | _ => Ok false
      end
  | CircleCollider e _ _ r =>
      match other with
      | CircleCollider e' _ _ r' =>
          let dx := (x e - x e')%float in
          let dy := (y e - y e')%float in
          distance ← math_sqrt (dx * dx + dy * dy)%float;
          Ok (PrimFloat.ltb distance (r + r')%float)
      | _ => Ok false
      end
  end.
End CollidesWith.

(** The Euclidean distance between two entities' positions, in the
    machine arithmetic of the program. *)
Definition euclidean (a b : Entity) : float :=
  let dx := (x a - x b)%float in
  let dy := (y a - y b)%float in
  PrimFloat.sqrt (dx * dx + dy * dy)%float.

End Collision.

(** ** UI widgets: hit-testing, Button, Panel layout *)

Module UI.

(** A widget holds a reference to its parent; following [parent] from a
    widget reaches the root after finitely many steps. *)
#[local] Set Warnings "-register-all".
Inductive UIElement := mkUIElement {
  base : Entity;
  parent : option UIElement;
  padding : float;
  enabled : bool
}.

(** [UIElement.__init__(x, y, width, height)]. *)
Definition new_element (x0 y0 w h : float) : UIElement :=
  mkUIElement (mkEntity x0 y0 w h 0 1 true) None 5 true.

Definition set_position (x0 y0 : float) (u : UIElement) : UIElement :=
  mkUIElement (set_y y0 (set_x x0 (base u))) (parent u) (padding u) (enabled u).

(** The [while current:] loop of [get_absolute_position], entered with
    [current = u.parent] and the sums so far. *)
Fixpoint climb (u : UIElement) (ax ay : float) : float * float :=
  match parent u with
  | None => (ax, ay)
  | Some p => climb p (ax + x (base p))%float (ay + y (base p))%float
  end.

Definition get_absolute_position (u : UIElement) : float * float :=
  climb u (x (base u)) (y (base u)).

(** [UIElement.contains_point]. *)
Definition contains_point (u : UIElement) (point : float * float) : bool :=
  let '(abs_x, abs_y) := get_absolute_position u in
  let hw := (width (base u) / 2)%float in
  let hh := (height (base u) / 2)%float in
  (PrimFloat.leb (abs_x - hw) point.1 && PrimFloat.leb point.1 (abs_x + hw))
  && (PrimFloat.leb (abs_y - hh) point.2 && PrimFloat.leb point.2 (abs_y + hh)).

(** *** Button *)

(** A callable is identified by its object; what running it does is
    given by [invoke] below. *)
Definition Callable := nat.

Record Button := mkButton {
  ui : UIElement;
  is_hovered : bool;
  is_pressed : bool;
  on_click : option Callable
}.

Definition set_hovered (h : bool) (b : Button) : Button :=
  mkButton (ui b) h (is_pressed b) (on_click b).

Definition set_pressed (p : bool) (b : Button) : Button :=
  mkButton (ui b) (is_hovered b) p (on_click b).

(** [Button.__init__]. *)
Definition new_button (x0 y0 w h : float) : Button :=
  mkButton (new_element x0 y0 w h) false false None.

Inductive Event :=
| QUIT
| KEYDOWN (key : Z)
| KEYUP (key : Z)
| MOUSEMOTION
| MOUSEBUTTONDOWN (button : Z)
| MOUSEBUTTONUP (button : Z).

Section Button.
(** The effect on the button of running a click callback that
    returns normally (it may change any field of the button). *)
Variable invoke : Callable -> Button -> Button.

(** [Button.handle_event]; [mouse_pos] is what
    [pygame.mouse.get_pos()] returns during the call.  The second
    component lists the callbacks that were run. *)
Definition handle_event (mouse_pos : float * float) (event : Event) (b : Button)
  : Button * list Callable :=
  if negb (enabled (ui b)) then (b, [])
  else
    let b1 := set_hovered (contains_point (ui b) mouse_pos) b in
    match event with
    | MOUSEBUTTONDOWN 1 =>
        if is_hovered b1 then (set_pressed true b1, []) else (b1, [])
    | MOUSEBUTTONUP 1 =>
        let '(b2, fired) :=
          match on_click b1 with
          | Some f =>
              if is_pressed b1 && is_hovered b1
              then (invoke f b1, [f])
              else (b1, [])
          | None => (b1, [])
          end in
        (set_pressed false b2, fired)
    | _ => (b1, [])
    end.
End Button.

(** *** Panel and layouts *)

Inductive LayoutKind := PlainLayout | VerticalLayout | HorizontalLayout.

Record Layout := mkLayout {
  kind : LayoutKind;
  spacing : float
}.

Record Panel := mkPanel {
  panel_ui : UIElement;
  children : list UIElement;
  layout : option Layout
}.

(** [sum(...)] over floats: left to right from zero (the plain running
    sum; exact for the sizes used below). *)
Definition fsum (l : list float) : float :=
  fold_left PrimFloat.add l 0%float.

(** The placement loop of [VerticalLayout.update]. *)
Fixpoint place_vertical (spacing current_y : float) (cs : list UIElement)
  : list UIElement :=
  match cs with
  | [] => []
  | c :: cs' =>
      set_position 0 (current_y + height (base c) / 2)%float c
        :: place_vertical spacing (current_y + (height (base c) + spacing))%float cs'
  end.

(** The placement loop of [HorizontalLayout.update]. *)
Fixpoint place_horizontal (spacing current_x : float) (cs : list UIElement)
  : list UIElement :=
  match cs with
  | [] => []
  | c :: cs' =>
      set_position (current_x + width (base c) / 2)%float 0 c
        :: place_horizontal spacing (current_x + (width (base c) + spacing))%float cs'
  end.

(** [Layout.update], [VerticalLayout.update], [HorizontalLayout.update]
    on the panel's children. *)
Definition layout_update (l : Layout) (cs : list UIElement) : list UIElement :=
  match kind l with
  | PlainLayout => cs
  | VerticalLayout =>
      match cs with
      | [] => cs
      | _ =>
          let total_height := fsum (map (fun c => height (base c)) cs) in
          let total_spacing := (spacing l * float_of_Z (Z.of_nat (length cs) - 1))%float in
          let current_y := (- total_height / 2 - total_spacing / 2)%float in
          place_vertical (spacing l) current_y cs
      end
  | HorizontalLayout =>
      match cs with
      | [] => cs
      | _ =>
          let total_width := fsum (map (fun c => width (base c)) cs) in
          let total_spacing := (spacing l * float_of_Z (Z.of_nat (length cs) - 1))%float in
          let current_x := (- total_width / 2 - total_spacing / 2)%float in
          place_horizontal (spacing l) current_x cs
      end
  end.

(** The layout pass of [Panel.render]. *)
Definition run_layout (p : Panel) : Panel :=
  match layout p with
  | Some l => mkPanel (panel_ui p) (layout_update l (children p)) (layout p)
  | None => p
  end.

(** The edges of a widget's box in its parent's coordinates: the box is
    centered on the widget's position. *)
Definition top_edge (u : UIElement) : float :=
  (y (base u) - height (base u) / 2)%float.

Definition bottom_edge (u : UIElement) : float :=
  (y (base u) + height (base u) / 2)%float.

End UI.

(** ** InputManager *)

Module Input.

(** Key codes and mouse button numbers are ints; the six collections
    are Python sets. *)
Record InputManager := mkInput {
  keys_pressed : gset Z;
  keys_down : gset Z;
  keys_up : gset Z;
  mouse_position : Z * Z;
  mouse_buttons_pressed : gset Z;
  mouse_buttons_down : gset Z;
  mouse_buttons_up : gset Z
}.

(** [InputManager.__init__]. *)
Definition new_input : InputManager :=
  mkInput ∅ ∅ ∅ (0, 0) ∅ ∅ ∅.

(** [InputManager.update]; [mouse_pos] is what [pygame.mouse.get_pos()]
    returns during the call. *)
Definition update (mouse_pos : Z * Z) (im : InputManager) : InputManager :=
  mkInput (keys_pressed im) ∅ ∅ mouse_pos (mouse_buttons_pressed im) ∅ ∅.

(** [InputManager.handle_event]. *)
Definition handle_event (event : UI.Event) (im : InputManager) : InputManager :=
  match event with
  | UI.KEYDOWN key =>
      mkInput (keys_pressed im ∪ {[key]}) (keys_down im ∪ {[key]}) (keys_up im)
              (mouse_position im) (mouse_buttons_pressed im)
              (mouse_buttons_down im) (mouse_buttons_up im)
  | UI.KEYUP key =>
      mkInput (keys_pressed im ∖ {[key]}) (keys_down im) (keys_up im ∪ {[key]})
              (mouse_position im) (mouse_buttons_pressed im)
              (mouse_buttons_down im) (mouse_buttons_up im)
  | UI.MOUSEBUTTONDOWN button =>
      mkInput (keys_pressed im) (keys_down im) (keys_up im)
              (mouse_position im) (mouse_buttons_pressed im ∪ {[button]})
              (mouse_buttons_down im ∪ {[button]}) (mouse_buttons_up im)
  | UI.MOUSEBUTTONUP button =>
      mkInput (keys_pressed im) (keys_down im) (keys_up im)
              (mouse_position im) (mouse_buttons_pressed im ∖ {[button]})
              (mouse_buttons_down im) (mouse_buttons_up im ∪ {[button]})
  | _ => im
  end.

Definition is_key_pressed (key : Z) (im : InputManager) : bool :=
  bool_decide (key ∈ keys_pressed im).

Definition is_key_down (key : Z) (im : InputManager) : bool :=
  bool_decide (key ∈ keys_down im).

Definition is_key_up (key : Z) (im : InputManager) : bool :=
  bool_decide (key ∈ keys_up im).

(** What one frame does to the input manager: [update], then
    [handle_event] for each polled event in order (the input part of
    [SigmaEngine._handle_events]). *)
Definition frame (mouse_pos : Z * Z) (events : list UI.Event) (im : InputManager)
  : InputManager :=
  fold_left (fun im event => handle_event event im) events (update mouse_pos im).

(** The last thing the events say about [key]: [Some true] when its
    last event is a key-down, [Some false] when it is a key-up, [None]
    when no event concerns it. *)
Fixpoint last_key_event (key : Z) (events : list UI.Event) : option bool :=
  match events with
  | [] => None
  | event :: events' =>
      match last_key_event key events' with
      | Some b => Some b
      | None =>
          match event with
          | UI.KEYDOWN k => if Z.eqb k key then Some true else None
          | UI.KEYUP k => if Z.eqb k key then Some false else None
          | _ => None
          end
      end
  end.

End Input.

(** ** SigmaEngine: scene registry and event pump *)

Module Engine.

(** A scene is a Python object, known here by its identity. *)
Definition SceneId := nat.

(** The scene hooks the engine runs.  [Scene.on_enter] and
    [Scene.on_exit] do nothing in the base class; what is recorded is
    which hook ran on which scene, in order. *)
Inductive Hook :=
| OnExit (scene : SceneId)
| OnEnter (scene : SceneId).

Record SigmaEngine := mkEngine {
  running : bool;
  input_manager : Input.InputManager;
  current_scene : option SceneId;
  scenes : gmap string SceneId
}.

(** [SigmaEngine.add_scene]; the back reference [scene.engine] it
    also sets is not a field of the engine. *)
Definition add_scene (name : string) (scene : SceneId) (g : SigmaEngine)
  : SigmaEngine :=
  mkEngine (running g) (input_manager g) (current_scene g)
           (<[name := scene]> (scenes g)).

(** [SigmaEngine.set_current_scene]: the engine afterwards and the
    hooks that ran. *)
Definition set_current_scene (name : string) (g : SigmaEngine)
  : SigmaEngine * list Hook :=
  match scenes g !! name with
  | Some scene =>
      let exits := match current_scene g with
                   | Some old => [OnExit old]
                   | None => []
                   end in
      (mkEngine (running g) (input_manager g) (Some scene) (scenes g),
       exits ++ [OnEnter scene])
  | None => (g, [])
  end.

(** One event of the loop in [SigmaEngine._handle_events]: the running
    flag, the input manager, and the delivery to the current scene. *)
Definition pump_event (event : UI.Event) (st : SigmaEngine * list (SceneId * UI.Event))
  : SigmaEngine * list (SceneId * UI.Event) :=
  let g := st.1 in
  let run := match event with UI.QUIT => false | _ => running g end in
  let im := Input.handle_event event (input_manager g) in
  let delivered := match current_scene g with
                   | Some scene => [(scene, event)]
                   | None => []
                   end in
  (mkEngine run im (current_scene g) (scenes g), st.2 ++ delivered).

(** [SigmaEngine._handle_events] on the events of one poll, with
    entity handlers that leave the engine itself alone; the second
    component lists the [Scene.handle_event] calls made. *)
Definition handle_events (mouse_pos : Z * Z) (events : list UI.Event) (g : SigmaEngine)
  : SigmaEngine * list (SceneId * UI.Event) :=
  let g0 := mkEngine (running g) (Input.update mouse_pos (input_manager g))
                     (current_scene g) (scenes g) in
  fold_left (fun st event => pump_event event st) events (g0, []).

(** Successive [set_current_scene] calls, with all the hooks they ran. *)
Fixpoint switches (names : list string) (g : SigmaEngine)
  : SigmaEngine * list Hook :=
  match names with
  | [] => (g, [])
  | name :: names' =>
      let r := set_current_scene name g in
      let r' := switches names' r.1 in
      (r'.1, r.2 ++ r'.2)
  end.

(** Replaying a hook log from a current scene: an exit must be of the
    scene that is current, and leaves none; an enter must happen while
    none is current, and makes the entered scene current.  The result
    is the current scene at the end, or [None] if the log breaks this
    discipline. *)
Fixpoint replay (current : option SceneId) (log : list Hook)
  : option (option SceneId) :=
  match log with
  | [] => Some current
  | OnExit s :: log' =>
      match current with
      | Some c => if Nat.eqb c s then replay None log' else None
      | None => None
      end
  | OnEnter s :: log' =>
      match current with
      | Some _ => None
      | None => replay (Some s) log'
      end
  end.

End Engine.

(** ** ResourceManager textures and [Sprite.load_texture] *)

Module Resources.

Section Textures.
Context {Surface : Type} `{Sprites.Pygame Surface}.

(** [pygame.image.load(path).convert_alpha()]: the decoded image, or
    the error pygame raises. *)
Variable image_load : string -> result Surface.

(** [ResourceManager.load_texture] on the texture table: the loaded
    texture and the table afterwards. *)
Definition load_texture (name path : string) (textures : gmap string Surface)
  : result (Surface * gmap string Surface) :=
  texture ← image_load path;
  Ok (texture, <[name := texture]> textures).

(** Where [Sprite.load_texture] ends: normally, or with the
    AttributeError of [self.scene.engine.resource_manager] when the
    scene's [engine] is [None]. *)
Inductive Outcome (A : Type) :=
| Done (a : A)
| AttributeError.

(** [Sprite.load_texture].  [scene] is the sprite's [scene] attribute:
    [None], or a scene whose [engine] is [None] or an engine with its
    texture table. *)
Definition sprite_load_texture (scene : option (option (gmap string Surface)))
           (s : Sprites.Sprite Surface) : Outcome (Sprites.Sprite Surface) :=
  match scene with
  | None => Done _ s
  | Some engine =>
      if negb (String.eqb (Sprites.texture_name s) "") then
        match engine with
        | None => AttributeError _
        | Some textures =>
            let found := textures !! Sprites.texture_name s in
            let e := Sprites.entity s in
            let e' := match found with
                      | Some t =>
                          mkEntity (x e) (y e)
                                   (float_of_Z (Sprites.get_width t))
                                   (float_of_Z (Sprites.get_height t))
                                   (rotation e) (scale e) (visible e)
                      | None => e
                      end in
            Done _ (Sprites.mkSprite e' (Sprites.texture_name s) found
                                     (Sprites.src_rect s) (Sprites.flip_x s)
                                     (Sprites.flip_y s) (Sprites.color_mod s)
                                     (Sprites.alpha s))
        end
      else Done _ s
  end.

End Textures.
Arguments Done {A} a.
Arguments AttributeError {A}.

End Resources.

(** ** Further definitions used by the properties below *)

Module Extras.

(** A clip in a state the constructor and [update] produce: one
    rectangle per frame and a frame index among them. *)
Definition well_formed (a : Sprites.Animation) : Prop :=
  length (Sprites.frames a) = Z.to_nat (Sprites.frame_count a)
  /\ 0 <= Sprites.current_frame a < Sprites.frame_count a.

(** The widgets met by following [parent] from a widget, nearest first. *)
Fixpoint ancestors (u : UI.UIElement) : list UI.UIElement :=
  match UI.parent u with
  | None => []
  | Some p => p :: ancestors p
  end.

(** A widget with its two axes exchanged: x with y, width with height. *)
Definition transpose (u : UI.UIElement) : UI.UIElement :=
  let e := UI.base u in
  UI.mkUIElement (mkEntity (y e) (x e) (height e) (width e)
                           (rotation e) (scale e) (visible e))
                 (UI.parent u) (UI.padding u) (UI.enabled u).

(** The size of a widget. *)
Definition size (u : UI.UIElement) : float * float :=
  (width (UI.base u), height (UI.base u)).

(** Events delivered to a button one after the other, each with the
    mouse position at its delivery; the callbacks run are collected in
    order. *)
Fixpoint deliver (invoke : UI.Callable -> UI.Button -> UI.Button)
         (inputs : list ((float * float) * UI.Event)) (b : UI.Button)
  : UI.Button * list UI.Callable :=
  match inputs with
  | [] => (b, [])
  | (mouse_pos, event) :: inputs' =>
      let r := UI.handle_event invoke mouse_pos event b in
      let r' := deliver invoke inputs' r.1 in
      (r'.1, r.2 ++ r'.2)
  end.

(** Example objects: a four-frame clip of 32-pixel frames, 0.1 s per
    frame, in a given playback state, and a sprite whose only and
    active clip it is. *)
Definition clip (cf : Z) (playing looping : bool) : Sprites.Animation :=
  Sprites.mkAnimation "walk.png" 32 32 4 0.1
    [mkRect 0 0 32 32; mkRect 32 0 32 32; mkRect 64 0 32 32; mkRect 96 0 32 32]
    cf 0 playing looping.

Definition sprite_with (a : Sprites.Animation) : Sprites.AnimatedSprite (Z * Z) :=
  Sprites.mkAnimatedSprite (Sprites.plain_sprite 0 0) {[ "walk"%string := a ]}
                           (Some "walk"%string).

End Extras.

(** * Properties *)

(** ** Scene traversal *)

Section SceneFacts.
Import SceneGraph.
Context {World : Type}.
Implicit Types (s : Scene World) (cb : Callback World).

Lemma for_each_preserving cb (Hcb : list_preserving cb) :
  forall fuel i s visited,
    (length (entities s) - i < fuel)%nat ->
    exists s',
      for_each cb fuel i s visited = Some (visited ++ drop i (entities s), s')
      /\ entities s' = entities s.
Proof.
  induction fuel as [|fuel IH]; intros i s visited Hfuel; simpl.
  - lia.
  - destruct (entities s !! i) as [e|] eqn:Hi.
    + destruct (IH (S i) (cb e s) (visited ++ [e])) as (s' & Hrun & Hs').
      { rewrite Hcb. apply lookup_lt_Some in Hi. lia. }
      exists s'. rewrite Hrun, Hs', !Hcb. split; [|reflexivity].
      rewrite (drop_S _ _ _ Hi), <- app_assoc. reflexivity.
    + exists s. split; [|reflexivity].
      rewrite drop_ge, app_nil_r; [reflexivity|].
      apply lookup_ge_None. exact Hi.
Qed.

Lemma for_each_appending cb (Hcb : appending cb) :
  forall fuel i s visited r s',
    (i <= length (entities s))%nat ->
    for_each cb fuel i s visited = Some (r, s') ->
    r = visited ++ drop i (entities s')
    /\ exists extra, entities s' = entities s ++ extra.
Proof.
  induction fuel as [|fuel IH]; intros i s visited r s' Hi Hrun; simpl in Hrun.
  - discriminate.
  - destruct (entities s !! i) as [e|] eqn:He.
    + destruct (Hcb e s) as [extra Hextra].
      apply IH in Hrun as (-> & extra' & Hs').
      2:{ rewrite Hextra, length_app. apply lookup_lt_Some in He. lia. }
      rewrite Hextra, <- app_assoc in Hs'. split; [|eauto].
      assert (He' : entities s' !! i = Some e).
      { rewrite Hs'. apply lookup_app_l_Some. exact He. }
      rewrite (drop_S _ _ _ He'), <- app_assoc. reflexivity.
    + injection Hrun as <- <-. split; [|exists []; rewrite app_nil_r; reflexivity].
      rewrite drop_ge, app_nil_r; [reflexivity|].
      apply lookup_ge_None. exact He.
Qed.

(** C1 (as amended): with callbacks that leave the scene's entity list
    unchanged, one [Scene.update] and one [Scene.render] each return
    after invoking the callback of every entity exactly once, in list
    order, and the list is the same afterwards.  With callbacks that
    only append to the list, a pass that ends has invoked the callback
    of every entity of the final list once, in list order, the entities
    present at the start coming first. *)
Theorem scene_traversal_visits_all
        (on_update : Entity -> float -> Scene World -> Scene World)
        (on_render : Callback World) (delta_time : float) s :
  (list_preserving (fun e => on_update e delta_time) ->
   forall fuel, (length (entities s) < fuel)%nat ->
     exists s', update on_update fuel delta_time s = Some (entities s, s')
                /\ entities s' = entities s)
  /\ (list_preserving on_render ->
      forall fuel, (length (entities s) < fuel)%nat ->
        exists s', render on_render fuel s = Some (entities s, s')
                   /\ entities s' = entities s)
  /\ (appending (fun e => on_update e delta_time) ->
      forall fuel visited s',
        update on_update fuel delta_time s = Some (visited, s') ->
        visited = entities s'
        /\ exists spawned, entities s' = entities s ++ spawned)
  /\ (appending on_render ->
      forall fuel visited s',
        render on_render fuel s = Some (visited, s') ->
        visited = entities s'
        /\ exists spawned, entities s' = entities s ++ spawned).
Proof.
  unfold update, render. split; [|split; [|split]].
  - intros Hcb fuel Hfuel.
    destruct (for_each_preserving _ Hcb fuel 0%nat s []) as (s' & Hrun & Hs'); [lia|].
    exists s'. rewrite Hrun, drop_0. auto.
  - intros Hcb fuel Hfuel.
    destruct (for_each_preserving _ Hcb fuel 0%nat s []) as (s' & Hrun & Hs'); [lia|].
    exists s'. rewrite Hrun, drop_0. auto.
  - intros Hcb fuel visited s' Hrun.
    apply (for_each_appending _ Hcb) in Hrun as [-> Hs']; [|lia].
    rewrite drop_0. auto.
  - intros Hcb fuel visited s' Hrun.
    apply (for_each_appending _ Hcb) in Hrun as [-> Hs']; [|lia].
    rewrite drop_0. auto.
Qed.
End SceneFacts.

(** Three entities, callbacks that only count: all three are visited. *)
Lemma scene_traversal_visits_all_witness :
  let s0 := SceneGraph.mkScene [0; 1; 2]%nat 0%nat in
  exists s', SceneGraph.update (fun e _ => SceneGraph.counting e) 4 (1 / 60) s0
             = Some ([0; 1; 2]%nat, s')
             /\ SceneGraph.entities s' = [0; 1; 2]%nat.
Proof.
  intros s0.
  apply (proj1 (scene_traversal_visits_all
                  (fun e _ => SceneGraph.counting e) SceneGraph.counting
                  (1 / 60) s0)).
  - intros e s. reflexivity.
  - simpl. lia.
Defined.

(** C1 (as stated) fails: in a scene holding entities 0 and 1, entity 0
    removes itself during its own update; the traversal then ends
    without ever updating entity 1. *)
Lemma scene_update_skips_after_removal :
  SceneGraph.entities (SceneGraph.mkScene [0; 1]%nat 0%nat) = [0; 1]%nat
  /\ SceneGraph.update (fun e _ => SceneGraph.self_removing e) 3 (1 / 60)
                       (SceneGraph.mkScene [0; 1]%nat 0%nat)
     = Some ([0]%nat, SceneGraph.mkScene [1]%nat 1%nat).
Proof. split; reflexivity. Qed.

(** An entity appended during the pass is itself updated in that pass. *)
Lemma scene_update_visits_spawned :
  SceneGraph.update (fun e _ => SceneGraph.spawning e) 4 (1 / 60)
                    (SceneGraph.mkScene [0; 1]%nat 0%nat)
  = Some ([0; 1; 7]%nat, SceneGraph.mkScene [0; 1; 7]%nat 3%nat).
Proof. reflexivity. Qed.

(** ** Physics *)

Section PhysicsFacts.
Import Physics.

Lemma static_call (c : Call) (b : PhysicsBody) :
  is_static b = true -> call c b = Ok b.
Proof.
  intros Hs. destruct c; simpl; unfold update, apply_force; rewrite Hs; reflexivity.
Qed.

(** C8: on a static body every sequence of [update] and [apply_force]
    calls, with any arguments, returns normally and leaves the body
    exactly as it was: its velocity, its acceleration and its entity's
    position included. *)
Theorem static_body_is_inert (b : PhysicsBody) (cs : list Call) :
  is_static b = true ->
  exists b', calls cs b = Ok b'
             /\ velocity b' = velocity b
             /\ x (entity b') = x (entity b)
             /\ y (entity b') = y (entity b)
             /\ acceleration b' = acceleration b.
Proof.
  intros Hs. exists b. split; [|auto].
  induction cs as [|c cs IH]; simpl; [reflexivity|].
  rewrite (static_call c b Hs). exact IH.
Qed.

(** C2: on a non-static body one [update] performs the five phases of
    the integration step in the stated order: gravity into vertical
    acceleration, acceleration into velocity, the friction factor on
    both velocity components whatever the delta time, the damped
    velocity into position, acceleration reset.  The second conjunct
    spells out the resulting values. *)
Theorem update_is_integration_step (b : PhysicsBody) (dt : float)
        (px py vx vy ax ay : float) :
  is_static b = false ->
  kinematic b = Some (mkKinematic (px, py) (vx, vy) (ax, ay)) ->
  exists b',
    update dt b = Ok b'
    /\ kinematic b'
       = Some (integration_spec (gravity_scale b) (friction b) dt
                                (mkKinematic (px, py) (vx, vy) (ax, ay)))
    /\ (let vx' := ((vx + ax * dt) * (1 - friction b))%float in
        let vy' := ((vy + (ay + 9.81 * gravity_scale b) * dt) * (1 - friction b))%float in
        velocity b' = [vx'; vy']
        /\ x (entity b') = (px + vx' * dt)%float
        /\ y (entity b') = (py + vy' * dt)%float
        /\ acceleration b' = [0; 0]%float)
    /\ (mass b', gravity_scale b', friction b', restitution b', is_static b')
       = (mass b, gravity_scale b, friction b, restitution b, is_static b).
Proof.
  intros Hs Hk. destruct b as [e v a m g f r st]. simpl in *. subst st.
  unfold kinematic in Hk. simpl in Hk.
  destruct v as [|vx0 [|vy0 [|? ?]]]; try discriminate.
  destruct a as [|ax0 [|ay0 [|? ?]]]; try discriminate.
  injection Hk as <- <- <- <- <- <-.
  eexists. split; [reflexivity|]. repeat split.
Qed.
End PhysicsFacts.

(** A default body at rest at the origin, one sixtieth of a second. *)
Lemma update_is_integration_step_witness :
  exists b',
    Physics.update (1 / 60) (Physics.new_body (new_entity 0 0)) = Ok b'
    /\ Physics.velocity b' = [0; ((0 + (0 + 9.81 * 1) * (1 / 60)) * (1 - 0.1))]%float
    /\ Physics.acceleration b' = [0; 0]%float.
Proof.
  destruct (update_is_integration_step
              (Physics.new_body (new_entity 0 0)) (1 / 60) 0 0 0 0 0 0
              eq_refl eq_refl) as (b' & Hrun & _ & (Hv & _ & _ & Ha) & _).
  exists b'. split; [exact Hrun|]. split; [|exact Ha].
  rewrite Hv. reflexivity.
Defined.

(** A static body pushed and stepped three times. *)
Lemma static_body_is_inert_witness :
  let b := Physics.mkBody (new_entity 3 4) [1; 2]%float [0; 0]%float 1 1 0.1 0.5 true in
  exists b',
    Physics.calls [Physics.ApplyForce 10 10; Physics.Update 0.5; Physics.Update 1] b = Ok b'
    /\ Physics.velocity b' = Physics.velocity b
    /\ x (Physics.entity b') = x (Physics.entity b)
    /\ y (Physics.entity b') = y (Physics.entity b)
    /\ Physics.acceleration b' = Physics.acceleration b.
Proof.
  intros b.
  apply (static_body_is_inert b
           [Physics.ApplyForce 10 10; Physics.Update 0.5; Physics.Update 1]).
  reflexivity.
Defined.

(** ** Animation clock *)

Lemma getitem_in_range {A : Type} (l : list A) (i : Z) :
  0 <= i < Z.of_nat (length l) ->
  exists a, getitem l i = Ok a /\ l !! Z.to_nat i = Some a.
Proof.
  intros Hi. unfold getitem.
  destruct (Z.ltb_spec i 0) as [Hneg|_]; [lia|].
  destruct (Z.ltb_spec i 0) as [Hneg|_]; [lia|].
  destruct (lookup_lt_is_Some_2 l (Z.to_nat i)) as [a Ha]; [lia|].
  exists a. rewrite Ha. auto.
Qed.

Section AnimationFacts.
Import Sprites.
Context {Surface : Type}.
Implicit Types (s : AnimatedSprite Surface) (a : Animation).

Lemma update_four_frame_loop s name a (dt : float) :
  active s name a -> four_frame_loop a ->
  exists s' a',
    update dt s = Ok s'
    /\ active s' name a' /\ four_frame_loop a'
    /\ active_frame s' = Some (current_frame a')
    /\ (let acc := (time_accumulated a + dt)%float in
        if PrimFloat.leb 0.1 acc
        then time_accumulated a' = 0%float
             /\ current_frame a' = next_frame (current_frame a)
        else time_accumulated a' = acc
             /\ current_frame a' = current_frame a)
    /\ src_rect (sprite s') = frames a !! Z.to_nat (current_frame a').
Proof.
  intros (Hcur & Hname & Hlook) (Hdur & Hcount & Hloop & Hplay & Hlen & Hcf).
  assert (Hin : 0 <= current_frame (tick dt a) < 4
                /\ frames (tick dt a) = frames a).
  { unfold tick. rewrite Hdur, Hcount, Hloop.
    destruct (PrimFloat.leb 0.1 (time_accumulated a + dt)); simpl.
    - destruct (Z.leb_spec 4 (current_frame a + 1)); simpl; split; auto; lia.
    - split; auto. }
  destruct Hin as [Hin Hfr].
  destruct (getitem_in_range (frames (tick dt a)) (current_frame (tick dt a)))
    as (r & Hget & Hr); [rewrite Hfr, Hlen; lia|].
  exists (mkAnimatedSprite (set_src_rect (Some r) (sprite s))
                           (<[name := tick dt a]> (animations s))
                           (current_animation s)), (tick dt a).
  split.
  { unfold update. rewrite Hcur.
    apply String.eqb_neq in Hname. rewrite Hname, Hlook, Hplay. simpl.
    rewrite Hget. reflexivity. }
  split.
  { unfold active. simpl. rewrite lookup_insert_eq. auto. }
  split.
  { unfold four_frame_loop. rewrite Hfr.
    unfold tick. rewrite Hdur, Hcount, Hloop, Hplay.
    destruct (PrimFloat.leb 0.1 (time_accumulated a + dt)); simpl.
    - destruct (Z.leb_spec 4 (current_frame a + 1)); simpl; repeat split; auto; lia.
    - repeat split; auto; lia. }
  split.
  { unfold active_frame. simpl. rewrite Hcur. simpl.
    rewrite lookup_insert_eq. reflexivity. }
  split.
  { unfold tick, next_frame. rewrite Hdur, Hcount, Hloop.
    destruct (PrimFloat.leb 0.1 (time_accumulated a + dt)); simpl.
    - destruct (Z.leb_spec 4 (current_frame a + 1));
        destruct (Z.eqb_spec (current_frame a + 1) 4); simpl; split; auto; lia.
    - split; auto. }
  simpl. rewrite <- Hfr. auto.
Qed.

(** One update of a fresh accumulator by a tenth of a second. *)
Lemma update_tenth s name a :
  active s name a -> four_frame_loop a -> time_accumulated a = 0%float ->
  exists s' a',
    update 0.1 s = Ok s'
    /\ active s' name a' /\ four_frame_loop a'
    /\ time_accumulated a' = 0%float
    /\ current_frame a' = next_frame (current_frame a)
    /\ active_frame s' = Some (next_frame (current_frame a)).
Proof.
  intros Hact Hclip Hacc.
  destruct (update_four_frame_loop s name a 0.1 Hact Hclip)
    as (s' & a' & Hrun & Hact' & Hclip' & Hfr & Hstep & _).
  rewrite Hacc in Hstep. simpl in Hstep.
  change (PrimFloat.leb 0.1 (0 + 0.1)) with true in Hstep.
  destruct Hstep as [Hacc' Hcf'].
  exists s', a'. rewrite Hfr, Hcf'. auto 10.
Qed.

(** C3: for the four-frame looping clip of duration 0.1, every update
    returns normally, adds the delta time to the accumulator, and when
    the sum reaches 0.1 resets the accumulator to zero and advances
    the frame index by exactly one, wrapping from 3 to 0, however
    large the delta time; otherwise the frame index stays.  From frame
    0 and an empty accumulator, five updates of 0.1 give the frame
    indices 1, 2, 3, 0, 1. *)
Theorem animation_clock s name a :
  active s name a -> four_frame_loop a ->
  (forall dt : float,
      exists s' a',
        update dt s = Ok s'
        /\ active s' name a' /\ four_frame_loop a'
        /\ (let acc := (time_accumulated a + dt)%float in
            if PrimFloat.leb 0.1 acc
            then time_accumulated a' = 0%float
                 /\ current_frame a' = next_frame (current_frame a)
            else time_accumulated a' = acc
                 /\ current_frame a' = current_frame a))
  /\ (current_frame a = 0 -> time_accumulated a = 0%float ->
      exists s',
        updates [0.1; 0.1; 0.1; 0.1; 0.1]%float s
        = Ok ([Some 1; Some 2; Some 3; Some 0; Some 1], s')).
Proof.
  intros Hact Hclip. split.
  - intros dt.
    destruct (update_four_frame_loop s name a dt Hact Hclip)
      as (s' & a' & Hrun & Hact' & Hclip' & _ & Hstep & _).
    exists s', a'. auto.
  - intros Hcf0 Hacc0.
    destruct (update_tenth s name a Hact Hclip Hacc0)
      as (s1 & a1 & Hr1 & Hact1 & Hclip1 & Hacc1 & Hcf1 & Hf1).
    destruct (update_tenth s1 name a1 Hact1 Hclip1 Hacc1)
      as (s2 & a2 & Hr2 & Hact2 & Hclip2 & Hacc2 & Hcf2 & Hf2).
    destruct (update_tenth s2 name a2 Hact2 Hclip2 Hacc2)
      as (s3 & a3 & Hr3 & Hact3 & Hclip3 & Hacc3 & Hcf3 & Hf3).
    destruct (update_tenth s3 name a3 Hact3 Hclip3 Hacc3)
      as (s4 & a4 & Hr4 & Hact4 & Hclip4 & Hacc4 & Hcf4 & Hf4).
    destruct (update_tenth s4 name a4 Hact4 Hclip4 Hacc4)
      as (s5 & a5 & Hr5 & Hact5 & Hclip5 & Hacc5 & Hcf5 & Hf5).
    exists s5. simpl.
    rewrite Hr1; simpl. rewrite Hr2; simpl. rewrite Hr3; simpl.
    rewrite Hr4; simpl. rewrite Hr5; simpl.
    rewrite Hf1, Hf2, Hf3, Hf4, Hf5, Hcf4, Hcf3, Hcf2, Hcf1, Hcf0.
    reflexivity.
Qed.
End AnimationFacts.

(** ** Collision shapes *)

(** *** A sum of two squares is never negative

    [math.sqrt] raises on a negative argument; the argument the circle
    test hands it is a sum of two machine squares, which is positive,
    zero, infinite or not-a-number. *)

Lemma binary_round_aux_not_negative (m e : Z) (l : location) :
  sf_not_negative (binary_round_aux prec emax false m e l).
Proof.
  unfold binary_round_aux.
  destruct (shr_fexp prec emax m e l) as [mrs e'].
  destruct (shr_fexp prec emax _ e' loc_Exact) as [mrs' e''].
  destruct (shr_m mrs'); simpl; try exact I.
  destruct (e'' <=? emax - prec); exact I.
Qed.

Lemma SFmul_self_not_negative (u : spec_float) :
  sf_not_negative (SFmul prec emax u u).
Proof.
  destruct u as [s|s| |s m e]; simpl; try exact I; try (destruct s; exact I).
  replace (xorb s s) with false by (destruct s; reflexivity).
  apply binary_round_aux_not_negative.
Qed.

Lemma SFadd_not_negative (u v : spec_float) :
  sf_not_negative u -> sf_not_negative v ->
  sf_not_negative (SFadd prec emax u v).
Proof.
  destruct u as [[]|[]| |[] mu eu], v as [[]|[]| |[] mv ev]; simpl;
    intros Hu Hv; try contradiction; try exact I.
  unfold binary_round.
  destruct (shl_align _ _ _) as [mz ez].
  apply binary_round_aux_not_negative.
Qed.

Lemma sum_of_squares_not_negative (a b : float) :
  PrimFloat.ltb (a * a + b * b) 0 = false.
Proof.
  rewrite ltb_spec, add_spec, !mul_spec.
  pose proof (SFadd_not_negative _ _ (SFmul_self_not_negative (Prim2SF a))
                                 (SFmul_self_not_negative (Prim2SF b))) as H.
  unfold SF64add, SF64mul.
  destruct (SFadd prec emax _ _) as [s|s| |s m e]; try destruct s;
    simpl in H; try contradiction; reflexivity.
Qed.

Section CollisionFacts.
Import Collision.
Variable colliderect : Bounds -> Bounds -> bool.

Lemma circle_circle (e1 e2 : Entity) (ox1 oy1 r1 ox2 oy2 r2 : float) :
  collides_with colliderect (CircleCollider e1 ox1 oy1 r1)
                            (CircleCollider e2 ox2 oy2 r2)
  = Ok (PrimFloat.ltb (euclidean e1 e2) (r1 + r2)).
Proof.
  simpl. unfold math_sqrt. rewrite sum_of_squares_not_negative. reflexivity.
Qed.

(** C4: between two circle colliders [collides_with] returns normally,
    with the value of the strict comparison of the Euclidean distance
    of the two entities' positions against the sum of the radii, all
    in the program's binary64 arithmetic.  So two circles of radius 5
    whose centers are at distance 10 do not collide and at distance
    9.99 do; the last two conjuncts are such pairs on a horizontal
    line. *)
Theorem circle_collision_is_strict (e1 e2 : Entity)
        (ox1 oy1 r1 ox2 oy2 r2 : float) :
  let self := CircleCollider e1 ox1 oy1 r1 in
  let other := CircleCollider e2 ox2 oy2 r2 in
  (collides_with colliderect self other = Ok true
   <-> PrimFloat.ltb (euclidean e1 e2) (r1 + r2) = true)
  /\ (collides_with colliderect self other = Ok false
      <-> PrimFloat.ltb (euclidean e1 e2) (r1 + r2) = false)
  /\ (r1 = 5%float -> r2 = 5%float -> euclidean e1 e2 = 10%float ->
      collides_with colliderect self other = Ok false)
  /\ (r1 = 5%float -> r2 = 5%float -> euclidean e1 e2 = 9.99%float ->
      collides_with colliderect self other = Ok true)
  /\ collides_with colliderect (CircleCollider (new_entity 0 0) 0 0 5)
                               (CircleCollider (new_entity 10 0) 0 0 5)
     = Ok false
  /\ collides_with colliderect (CircleCollider (new_entity 0 0) 0 0 5)
                               (CircleCollider (new_entity 9.99 0) 0 0 5)
     = Ok true.
Proof.
  intros self other. subst self other. rewrite circle_circle.
  repeat split.
  - intros [= ->]. reflexivity.
  - intros ->. reflexivity.
  - intros [= ->]. reflexivity.
  - intros ->. reflexivity.
  - intros -> -> ->. reflexivity.
  - intros -> -> ->. reflexivity.
Qed.

(** C5: a box against a circle, and a circle against a box, is
    reported as no collision: the call returns [False], it does not
    raise, wherever the two entities are and whatever their sizes. *)
Theorem box_circle_never_collide (eb ec : Entity)
        (box_ox box_oy w h circ_ox circ_oy r : float) :
  let box := BoxCollider eb box_ox box_oy w h in
  let circle := CircleCollider ec circ_ox circ_oy r in
  collides_with colliderect box circle = Ok false
  /\ collides_with colliderect circle box = Ok false.
Proof. split; reflexivity. Qed.

(** C10: the verdict of circle against circle is the same whatever
    offsets the two colliders carry, while [get_bounds] of a circle
    collider moves with its offset: its left and top are the entity's
    position plus the offset minus the radius, and two different
    offsets on the same entity give two different rectangles. *)
Theorem circle_collision_ignores_offsets (e1 e2 : Entity)
        (ox1 oy1 ox2 oy2 ox1' oy1' ox2' oy2' r1 r2 : float) :
  collides_with colliderect (set_offset ox1' oy1' (CircleCollider e1 ox1 oy1 r1))
                            (set_offset ox2' oy2' (CircleCollider e2 ox2 oy2 r2))
  = collides_with colliderect (CircleCollider e1 ox1 oy1 r1)
                              (CircleCollider e2 ox2 oy2 r2)
  /\ get_bounds (set_offset ox1' oy1' (CircleCollider e1 ox1 oy1 r1))
     = Ok (mkBounds (x e1 + ox1' - r1) (y e1 + oy1' - r1) (r1 * 2) (r1 * 2))%float
  /\ get_bounds (CircleCollider (new_entity 0 0) 3 4 5)
     = Ok (mkBounds (-2) (-1) 10 10)%float
  /\ get_bounds (CircleCollider (new_entity 0 0) 0 0 5)
     = Ok (mkBounds (-5) (-5) 10 10)%float.
Proof.
  simpl set_offset. rewrite !circle_circle. repeat split; reflexivity.
Qed.
End CollisionFacts.

(** The two boundary cases of C4 on a vertical line, with pygame's
    rectangle test stubbed out (circles never reach it). *)
Lemma circle_collision_is_strict_witness :
  Collision.collides_with (fun _ _ => false)
    (Collision.CircleCollider (new_entity 1 2) 0 0 5)
    (Collision.CircleCollider (new_entity 1 12) 0 0 5) = Ok false
  /\ Collision.collides_with (fun _ _ => false)
       (Collision.CircleCollider (new_entity 1 0) 0 0 5)
       (Collision.CircleCollider (new_entity 1 9.99) 0 0 5) = Ok true.
Proof.
  split.
  - apply (circle_collision_is_strict (fun _ _ => false)
             (new_entity 1 2) (new_entity 1 12) 0 0 5 0 0 5); reflexivity.
  - apply (circle_collision_is_strict (fun _ _ => false)
             (new_entity 1 0) (new_entity 1 9.99) 0 0 5 0 0 5); reflexivity.
Defined.

(** ** Button *)

Section ButtonFacts.
Import UI.
Variable invoke : Callable -> Button -> Button.

(** C6: on an enabled button, a left-button-down with the mouse inside
    the bounds arms [is_pressed] without running anything, and a
    following left-button-up with the mouse outside runs no callback
    and leaves [is_pressed] false.  In general a left-button-up leaves
    [is_pressed] false, and runs the click callback exactly when the
    button was pressed, the mouse is inside the bounds and a callback
    is set. *)
Theorem button_click_protocol (b : Button) :
  enabled (ui b) = true ->
  (forall inside outside : float * float,
      contains_point (ui b) inside = true ->
      contains_point (ui b) outside = false ->
      let r1 := handle_event invoke inside (MOUSEBUTTONDOWN 1) b in
      let r2 := handle_event invoke outside (MOUSEBUTTONUP 1) r1.1 in
      is_pressed r1.1 = true /\ r1.2 = []
      /\ r2.2 = [] /\ is_pressed r2.1 = false)
  /\ (forall mouse_pos : float * float,
         let r := handle_event invoke mouse_pos (MOUSEBUTTONUP 1) b in
         is_pressed r.1 = false
         /\ (forall f, In f r.2 ->
                       is_pressed b = true
                       /\ contains_point (ui b) mouse_pos = true
                       /\ on_click b = Some f)
         /\ (forall f, is_pressed b = true ->
                       contains_point (ui b) mouse_pos = true ->
                       on_click b = Some f ->
                       r.2 = [f])).
Proof.
  intros Hen. split.
  - intros inside outside Hin Hout r1 r2. subst r2 r1.
    unfold handle_event. rewrite Hen. simpl. rewrite Hin. simpl.
    rewrite Hen. simpl. rewrite Hout. simpl.
    destruct (on_click b); simpl; auto.
  - intros mouse_pos r. subst r.
    unfold handle_event. rewrite Hen. simpl.
    destruct (on_click b) as [f|]; simpl.
    + destruct (is_pressed b), (contains_point (ui b) mouse_pos); simpl;
        repeat split; simpl in *; intros; intuition congruence.
    + repeat split; simpl in *; intros; intuition congruence.
Qed.
End ButtonFacts.

(** A 100 by 50 button at the origin with a callback that does nothing
    to the button, pressed at (10, 10) and released at (200, 200). *)
Lemma button_click_protocol_witness :
  let b := UI.mkButton (UI.new_element 0 0 100 50) false false (Some 0%nat) in
  let r1 := UI.handle_event (fun _ b => b) (10, 10)%float (UI.MOUSEBUTTONDOWN 1) b in
  let r2 := UI.handle_event (fun _ b => b) (200, 200)%float (UI.MOUSEBUTTONUP 1) r1.1 in
  UI.is_pressed r1.1 = true /\ r1.2 = [] /\ r2.2 = [] /\ UI.is_pressed r2.1 = false.
Proof.
  intros b.
  apply (proj1 (button_click_protocol (fun _ b => b) b eq_refl)
               (10, 10)%float (200, 200)%float); reflexivity.
Defined.

(** ** Vertical layout *)

Section LayoutFacts.
Import UI.

(** C7: a panel whose vertical layout has spacing 5 and whose two
    children have heights 20 and 30: after the layout pass both
    children have local x = 0, the first spans -27.5 to -7.5 and the
    second -2.5 to 27.5 vertically, so the gap between them is exactly
    5 and the stack is centered on the panel's local origin. *)
Theorem vertical_layout_two_children (p : Panel) (l : Layout) (c1 c2 : UIElement) :
  layout p = Some l ->
  kind l = VerticalLayout ->
  spacing l = 5%float ->
  children p = [c1; c2] ->
  height (base c1) = 20%float ->
  height (base c2) = 30%float ->
  exists c1' c2',
    children (run_layout p) = [c1'; c2']
    /\ x (base c1') = 0%float /\ x (base c2') = 0%float
    /\ height (base c1') = 20%float /\ height (base c2') = 30%float
    /\ y (base c1') = (-17.5)%float /\ y (base c2') = 12.5%float
    /\ (top_edge c2' - bottom_edge c1')%float = 5%float
    /\ top_edge c1' = (-27.5)%float
    /\ bottom_edge c2' = 27.5%float
    /\ top_edge c1' = (- bottom_edge c2')%float.
Proof.
  intros Hl Hk Hs Hc H1 H2.
  destruct c1 as [[x1 y1 w1 h1 rot1 sc1 vis1] par1 pad1 en1].
  destruct c2 as [[x2 y2 w2 h2 rot2 sc2 vis2] par2 pad2 en2].
  simpl in H1, H2. subst h1 h2.
  unfold run_layout, layout_update. rewrite Hl, Hk, Hc, Hs.
  eexists _, _. split; [reflexivity|].
  repeat split.
Qed.
End LayoutFacts.

(** Two default-width widgets of heights 20 and 30 in a default panel. *)
Lemma vertical_layout_two_children_witness :
  let c1 := UI.new_element 40 40 100 20 in
  let c2 := UI.new_element 7 (-3) 100 30 in
  let l := UI.mkLayout UI.VerticalLayout 5 in
  let p := UI.mkPanel (UI.new_element 0 0 200 200) [c1; c2] (Some l) in
  exists c1' c2',
    UI.children (UI.run_layout p) = [c1'; c2']
    /\ x (UI.base c1') = 0%float /\ x (UI.base c2') = 0%float
    /\ height (UI.base c1') = 20%float /\ height (UI.base c2') = 30%float
    /\ y (UI.base c1') = (-17.5)%float /\ y (UI.base c2') = 12.5%float
    /\ (UI.top_edge c2' - UI.bottom_edge c1')%float = 5%float
    /\ UI.top_edge c1' = (-27.5)%float
    /\ UI.bottom_edge c2' = 27.5%float
    /\ UI.top_edge c1' = (- UI.bottom_edge c2')%float.
Proof.
  intros c1 c2 l p.
  apply (vertical_layout_two_children p l c1 c2); reflexivity.
Defined.

(** The four-frame clip built by the constructor and started by
    [add_animation], fed five tenths of a second. *)
Lemma animation_clock_witness :
  exists s0 s',
    Sprites.walker = Ok s0
    /\ Sprites.updates [0.1; 0.1; 0.1; 0.1; 0.1]%float s0
       = Ok ([Some 1; Some 2; Some 3; Some 0; Some 1], s').
Proof.
  destruct Sprites.walker as [s0|] eqn:Hw; [|discriminate Hw].
  injection Hw as Hs0.
  destruct (Sprites.animations s0 !! "walk"%string) as [a|] eqn:Ha;
    [|subst s0; discriminate Ha].
  assert (Hact : Sprites.active s0 "walk" a).
  { subst s0. repeat split; [discriminate|exact Ha]. }
  assert (Hclip : Sprites.four_frame_loop a /\ Sprites.current_frame a = 0
                  /\ Sprites.time_accumulated a = 0%float).
  { subst s0. injection Ha as <-. repeat split; reflexivity || lia. }
  destruct Hclip as (Hclip & Hcf & Hacc).
  destruct (proj2 (animation_clock s0 "walk" a Hact Hclip) Hcf Hacc) as [s' Hrun].
  exists s0, s'. split; [reflexivity|exact Hrun].
Defined.

(** ** Sprite blit position *)

Lemma shift_is_floor (m : positive) (e : Z) :
  let v := (inject_Z (Z.pos m) * Qpower 2 e)%Q in
  let n := Z.shiftl (Z.pos m) e in
  0 <= n /\ (inject_Z n <= v)%Q /\ (v < inject_Z n + 1)%Q.
Proof.
  intros v n. subst v n.
  destruct (Z.le_gt_cases 0 e) as [He|He].
  - rewrite Z.shiftl_mul_pow2 by exact He.
    assert (Hv : (inject_Z (Z.pos m) * Qpower 2 e == inject_Z (Z.pos m * 2 ^ e))%Q).
    { rewrite inject_Z_mult, (Zpower_Qpower 2 e He). reflexivity. }
    rewrite Hv. split; [|split].
    + apply Z.mul_nonneg_nonneg; [lia|]. apply Z.pow_nonneg. lia.
    + apply Qle_refl.
    + rewrite <- (inject_Z_plus _ 1). rewrite <- Zlt_Qlt. lia.
  - replace e with (- (- e)) by lia.
    set (k := - e). assert (Hk : 0 < k) by (unfold k; lia). clearbody k. clear He.
    rewrite Z.shiftl_opp_r, Z.shiftr_div_pow2 by lia.
    assert (Hd : 0 < 2 ^ k) by (apply Z.pow_pos_nonneg; lia).
    assert (Hv : (inject_Z (Z.pos m) * Qpower 2 (- k)
                  == inject_Z (Z.pos m) / inject_Z (2 ^ k))%Q).
    { rewrite Qpower_opp, (Zpower_Qpower 2 k) by lia. reflexivity. }
    rewrite Hv.
    assert (HdQ : (0 < inject_Z (2 ^ k))%Q).
    { rewrite (Zlt_Qlt 0 (2 ^ k)) in Hd. exact Hd. }
    split; [|split].
    + apply Z.div_pos; lia.
    + apply Qle_shift_div_l; [exact HdQ|].
      rewrite <- inject_Z_mult, <- Zle_Qle.
      rewrite Z.mul_comm. apply Z.mul_div_le. exact Hd.
    + apply Qlt_shift_div_r; [exact HdQ|].
      rewrite <- (inject_Z_plus _ 1), <- inject_Z_mult, <- Zlt_Qlt.
      rewrite Z.mul_comm.
      pose proof (Z.mul_succ_div_gt (Z.pos m) (2 ^ k) Hd). lia.
Qed.

Lemma truncation_of_magnitude (s : bool) (v : Q) (n : Z) :
  0 <= n -> (inject_Z n <= v)%Q -> (v < inject_Z n + 1)%Q ->
  truncation (if s then Qopp v else v) (if s then - n else n).
Proof.
  intros Hn Hlo Hhi.
  assert (HnQ : (0 <= inject_Z n)%Q) by (rewrite (Zle_Qle 0 n) in Hn; exact Hn).
  assert (Hv : (0 <= v)%Q) by (eapply Qle_trans; eassumption).
  unfold truncation. destruct s.
  - rewrite inject_Z_opp, !Qabs_opp, (Qabs_pos _ HnQ), (Qabs_pos _ Hv).
    split; [exact Hlo|]. split; [exact Hhi|].
    setoid_replace (- v * - inject_Z n)%Q with (v * inject_Z n)%Q
      using relation Qeq by ring.
    apply Qmult_le_0_compat; assumption.
  - rewrite (Qabs_pos _ HnQ), (Qabs_pos _ Hv).
    split; [exact Hlo|]. split; [exact Hhi|].
    apply Qmult_le_0_compat; assumption.
Qed.

(** [int()] of a finite float returns the truncation of its value. *)
Lemma int_of_float_truncates (f : float) (q : Q) :
  Q_of_float f = Some q ->
  exists n, int_of_float f = Ok n /\ truncation q n.
Proof.
  unfold Q_of_float, int_of_float.
  destruct (Prim2SF f) as [s|s| |s m e]; try discriminate; intros [= <-].
  - exists 0. split; [reflexivity|].
    unfold truncation. simpl. repeat split; discriminate || reflexivity.
  - eexists. split; [reflexivity|].
    destruct (shift_is_floor m e) as (Hn & Hlo & Hhi).
    apply truncation_of_magnitude; assumption.
Qed.

Section RenderFacts.
Import Sprites.
Context {Surface : Type} `{Pygame Surface}.

(** C9 (as amended): for a visible sprite with a resolved texture,
    whose image pipeline succeeds and whose position is finite,
    [int(x)] and [int(y)] are the truncations of [x] and [y] toward
    zero; when both fit in a signed 32-bit integer the transformed
    image is blitted centered at that point, and otherwise [render]
    raises TypeError and blits nothing. *)
Theorem render_blits_at_truncated_position
        (s : Sprite Surface) (t img : Surface) (qx qy : Q) :
  visible (entity s) = true ->
  texture s = Some t ->
  transformed s t = Ok img ->
  Q_of_float (x (entity s)) = Some qx ->
  Q_of_float (y (entity s)) = Some qy ->
  exists cx cy,
    int_of_float (x (entity s)) = Ok cx
    /\ int_of_float (y (entity s)) = Ok cy
    /\ truncation qx cx /\ truncation qy cy
    /\ render s = if in_int32 cx && in_int32 cy
                  then Ok (Some (mkBlit img (cx, cy)))
                  else Raise TypeError.
Proof.
  intros Hvis Htex Himg Hx Hy.
  destruct (int_of_float_truncates _ _ Hx) as (cx & Hcx & Htx).
  destruct (int_of_float_truncates _ _ Hy) as (cy & Hcy & Hty).
  exists cx, cy. split; [exact Hcx|]. split; [exact Hcy|].
  split; [exact Htx|]. split; [exact Hty|].
  unfold render. rewrite Hvis, Htex. simpl. rewrite Himg. simpl.
  rewrite Hcx. simpl. rewrite Hcy. reflexivity.
Qed.
End RenderFacts.

(** A sprite at (2.75, -1.5): its blit is centered on (2, -1), the
    truncations of its coordinates. *)
Lemma render_blits_at_truncated_position_witness :
  exists qx qy,
    Q_of_float 2.75 = Some qx /\ Q_of_float (-1.5) = Some qy
    /\ Sprites.render (Sprites.plain_sprite 2.75 (-1.5))
       = Ok (Some (Sprites.mkBlit (32, 32) (2, -1)))
    /\ truncation qx 2 /\ truncation qy (-1).
Proof.
  destruct (Q_of_float 2.75) as [qx|] eqn:Hx; [|discriminate Hx].
  destruct (Q_of_float (-1.5)) as [qy|] eqn:Hy; [|discriminate Hy].
  assert (Himg : Sprites.transformed (Sprites.plain_sprite 2.75 (-1.5)) (32, 32)
                 = Ok (32, 32)) by (vm_compute; reflexivity).
  destruct (render_blits_at_truncated_position
              (Sprites.plain_sprite 2.75 (-1.5)) (32, 32) (32, 32) qx qy
              eq_refl eq_refl Himg Hx Hy)
    as (cx & cy & Hcx & Hcy & Htx & Hty & Hrun).
  vm_compute in Hcx. vm_compute in Hcy.
  injection Hcx as <-. injection Hcy as <-.
  exists qx, qy. auto.
Defined.

(** A sprite at x = 1e10: the truncated abscissa does not fit in 32
    bits, the center assignment raises and nothing is blitted. *)
Lemma render_rejects_out_of_range_center :
  Sprites.render (Sprites.plain_sprite 1e10 0) = Raise TypeError.
Proof. vm_compute. reflexivity. Qed.

(** C9 (as stated) fails: a sprite at x = 2.75 is drawn centered on
    column 2, and 2 is not a nearest integer of 2.75 (3 is). *)
Lemma render_truncates_not_rounds :
  Sprites.render (Sprites.plain_sprite 2.75 0)
  = Ok (Some (Sprites.mkBlit (32, 32) (2, 0)))
  /\ exists q, Q_of_float 2.75 = Some q
               /\ (q == 11 # 4)%Q /\ ~ nearest q 2 /\ nearest q 3.
Proof.
  split; [reflexivity|].
  eexists. split; [reflexivity|]. split; [reflexivity|]. split.
  - unfold nearest. intros Hle. vm_compute in Hle. apply Hle. reflexivity.
  - unfold nearest. vm_compute. discriminate.
Qed.

(** * Further properties of the engine *)

(** ** Input manager *)

Section InputFacts.
Import Input.
#[local] Set Warnings "-clear-no-such-hyp".

Lemma fold_keys_down (key : Z) (events : list UI.Event) (im : InputManager) :
  key ∈ keys_down (fold_left (fun im event => handle_event event im) events im)
  <-> key ∈ keys_down im \/ UI.KEYDOWN key ∈ events.
Proof.
  revert im. induction events as [|event events IH]; intros im; simpl.
  - set_solver.
  - rewrite IH, elem_of_cons.
    destruct event; simpl; try set_solver.
Qed.

Lemma fold_keys_up (key : Z) (events : list UI.Event) (im : InputManager) :
  key ∈ keys_up (fold_left (fun im event => handle_event event im) events im)
  <-> key ∈ keys_up im \/ UI.KEYUP key ∈ events.
Proof.
  revert im. induction events as [|event events IH]; intros im; simpl.
  - set_solver.
  - rewrite IH, elem_of_cons.
    destruct event; simpl; try set_solver.
Qed.

(** X1: after a frame (update, then the polled events in order),
    [is_key_down] holds for exactly the keys that have a key-down event
    in this frame's events and [is_key_up] for exactly those with a
    key-up event, whatever the input manager held before. *)
Theorem frame_edges_are_this_frame (mouse_pos : Z * Z) (events : list UI.Event)
        (im : InputManager) (key : Z) :
  (is_key_down key (frame mouse_pos events im) = true
   <-> UI.KEYDOWN key ∈ events)
  /\ (is_key_up key (frame mouse_pos events im) = true
      <-> UI.KEYUP key ∈ events).
Proof.
  unfold is_key_down, is_key_up, frame. rewrite !bool_decide_eq_true.
  rewrite fold_keys_down, fold_keys_up. simpl. set_solver.
Qed.

Lemma fold_keys_pressed (key : Z) (events : list UI.Event) (im : InputManager) :
  is_key_pressed key (fold_left (fun im event => handle_event event im) events im)
  = match last_key_event key events with
    | Some b => b
    | None => is_key_pressed key im
    end.
Proof.
  revert im. induction events as [|event events IH]; intros im; simpl.
  - reflexivity.
  - rewrite IH. destruct (last_key_event key events) as [b|]; [reflexivity|].
    unfold is_key_pressed.
    destruct event as [ |k|k| |b|b]; simpl; try reflexivity.
    + destruct (Z.eqb_spec k key) as [->|Hne].
      * apply bool_decide_eq_true. set_solver.
      * apply bool_decide_ext. set_solver.
    + destruct (Z.eqb_spec k key) as [->|Hne].
      * apply bool_decide_eq_false. set_solver.
      * apply bool_decide_ext. set_solver.
Qed.

(** X2: after a frame, [is_key_pressed] of a key is what the last event
    about that key says (pressed after a key-down, not pressed after a
    key-up), and what it was before the frame when no event concerns
    the key: the start-of-frame [update] never releases a held key. *)
Theorem frame_key_level (mouse_pos : Z * Z) (events : list UI.Event)
        (im : InputManager) (key : Z) :
  is_key_pressed key (frame mouse_pos events im)
  = match last_key_event key events with
    | Some b => b
    | None => is_key_pressed key im
    end.
Proof.
  unfold frame. rewrite fold_keys_pressed. reflexivity.
Qed.
End InputFacts.

(** ** Engine: scene switching and the event pump *)

Section EngineFacts.
Import Engine.

Lemma replay_app (current : option SceneId) (log1 log2 : list Hook) :
  replay current (log1 ++ log2)
  = match replay current log1 with
    | Some c => replay c log2
    | None => None
    end.
Proof.
  revert current. induction log1 as [|h log1 IH]; intros current; simpl.
  - reflexivity.
  - destruct h, current as [c|]; simpl; try reflexivity.
    + destruct (Nat.eqb c scene); [apply IH|reflexivity].
    + apply IH.
Qed.

Lemma set_current_scene_replay (name : string) (g : SigmaEngine) :
  let r := set_current_scene name g in
  replay (current_scene g) r.2 = Some (current_scene r.1)
  /\ scenes r.1 = scenes g.
Proof.
  unfold set_current_scene.
  destruct (scenes g !! name) as [scene|]; simpl; [|auto].
  destruct (current_scene g) as [old|]; simpl; [rewrite Nat.eqb_refl|]; auto.
Qed.

(** X3: over any sequence of [set_current_scene] calls the hooks are
    properly paired: every [on_exit] is of the scene that is current at
    that moment, a scene is entered only when none is current (at the
    start) or right after the exit of the previous one, and the scene
    current at the end is the last one entered.  The scene table is
    never changed, and if none of the names is registered nothing
    happens at all. *)
Theorem scene_switches_pair_hooks (names : list string) (g : SigmaEngine) :
  let r := switches names g in
  replay (current_scene g) r.2 = Some (current_scene r.1)
  /\ scenes r.1 = scenes g
  /\ (Forall (fun name => scenes g !! name = None) names -> r = (g, [])).
Proof.
  revert g. induction names as [|name names IH]; intros g; simpl.
  - auto.
  - destruct (IH (set_current_scene name g).1) as (Hreplay & Hscenes & Hnone).
    destruct (set_current_scene_replay name g) as [Hstep Hsame].
    split; [|split].
    + rewrite replay_app, Hstep. exact Hreplay.
    + rewrite Hscenes. exact Hsame.
    + intros Hall. inversion Hall as [|? ? Hname Hrest]; subst.
      assert (Hno : set_current_scene name g = (g, [])).
      { unfold set_current_scene. rewrite Hname. reflexivity. }
      rewrite Hno in *. simpl in *. rewrite (Hnone Hrest). reflexivity.
Qed.

(** X4: registering a scene under a name and then switching to that
    name makes exactly that scene current, also when the name was
    registered before with another scene; the only hooks run are the
    exit of the scene that was current (if any) and then the enter of
    the new one. *)
Theorem add_then_switch (name : string) (scene : SceneId) (g : SigmaEngine) :
  let r := set_current_scene name (add_scene name scene g) in
  current_scene r.1 = Some scene
  /\ scenes r.1 !! name = Some scene
  /\ (forall other, other <> name -> scenes r.1 !! other = scenes g !! other)
  /\ r.2 = match current_scene g with
           | Some old => [OnExit old; OnEnter scene]
           | None => [OnEnter scene]
           end.
Proof.
  unfold set_current_scene, add_scene. simpl.
  rewrite lookup_insert_eq. simpl.
  split; [reflexivity|]. split; [apply lookup_insert_eq|].
  split; [|destruct (current_scene g); reflexivity].
  intros other Hne. apply lookup_insert_ne. congruence.
Qed.

Lemma pump_fold (events : list UI.Event) (g : SigmaEngine)
      (log : list (SceneId * UI.Event)) :
  let r := fold_left (fun st event => pump_event event st) events (g, log) in
  running r.1 = running g && forallb (fun e => match e with UI.QUIT => false | _ => true end) events
  /\ input_manager r.1
     = fold_left (fun im event => Input.handle_event event im) events (input_manager g)
  /\ current_scene r.1 = current_scene g
  /\ scenes r.1 = scenes g
  /\ r.2 = log ++ match current_scene g with
                  | Some scene => map (fun e => (scene, e)) events
                  | None => []
                  end.
Proof.
  revert g log. induction events as [|event events IH]; intros g log; simpl.
  - rewrite andb_true_r. repeat split; try reflexivity.
    destruct (current_scene g); rewrite app_nil_r; reflexivity.
  - destruct (IH (pump_event event (g, log)).1 (pump_event event (g, log)).2)
      as (Hrun & Him & Hcur & Hsc & Hlog).
    rewrite <- surjective_pairing in Hrun, Him, Hcur, Hsc, Hlog.
    rewrite Hrun, Him, Hcur, Hsc, Hlog. simpl.
    repeat split.
    + destruct event; simpl; destruct (running g); reflexivity.
    + destruct (current_scene g); simpl; rewrite <- app_assoc; reflexivity.
Qed.

(** X5: one [_handle_events] pass leaves [running] true only if it was
    true and the poll held no QUIT event (it never turns it on), and a
    QUIT does not cut the poll short: every event of the poll, QUIT and
    those after it included, reaches the input manager and the current
    scene, in poll order.  The input manager ends as after its own
    frame on these events. *)
Theorem handle_events_delivers_all (mouse_pos : Z * Z) (events : list UI.Event)
        (g : SigmaEngine) :
  let r := handle_events mouse_pos events g in
  running r.1
  = running g && forallb (fun e => match e with UI.QUIT => false | _ => true end) events
  /\ input_manager r.1 = Input.frame mouse_pos events (input_manager g)
  /\ current_scene r.1 = current_scene g
  /\ r.2 = match current_scene g with
           | Some scene => map (fun e => (scene, e)) events
           | None => []
           end.
Proof.
  unfold handle_events.
  destruct (pump_fold events
              (mkEngine (running g) (Input.update mouse_pos (input_manager g))
                        (current_scene g) (scenes g)) [])
    as (Hrun & Him & Hcur & _ & Hlog).
  simpl in *. rewrite Hrun, Him, Hcur, Hlog. repeat split.
Qed.
End EngineFacts.

(** ** Scene membership *)

Section SceneMembership.
Import SceneGraph.
Context {World : Type}.

Lemma list_remove_count (e e' : Entity) (l : list Entity) :
  count_occ Nat.eq_dec (list_remove e l) e'
  = (count_occ Nat.eq_dec l e' - if Nat.eqb e' e then 1 else 0)%nat.
Proof.
  induction l as [|a l IH]; simpl.
  - reflexivity.
  - destruct (Nat.eqb_spec a e) as [->|Hae].
    + destruct (Nat.eq_dec e e') as [<-|Hne].
      * rewrite Nat.eqb_refl. lia.
      * destruct (Nat.eqb_spec e' e); [congruence|lia].
    + simpl. rewrite IH.
      destruct (Nat.eq_dec a e') as [<-|Hne].
      * destruct (Nat.eqb_spec a e); [congruence|lia].
      * reflexivity.
Qed.

Lemma list_remove_sublist (e : Entity) (l : list Entity) :
  sublist (list_remove e l) l.
Proof.
  induction l as [|a l IH]; simpl.
  - constructor.
  - destruct (Nat.eqb a e).
    + apply sublist_cons. reflexivity.
    + apply sublist_skip. exact IH.
Qed.

Lemma existsb_eqb_false (e : Entity) (l : list Entity) :
  existsb (Nat.eqb e) l = false -> count_occ Nat.eq_dec l e = 0%nat.
Proof.
  induction l as [|a l IH]; simpl; [reflexivity|].
  destruct (Nat.eqb_spec e a) as [->|Hne]; simpl; [discriminate|].
  intros H. destruct (Nat.eq_dec a e); [congruence|auto].
Qed.

(** X6: [remove_entity] takes out exactly one occurrence of the entity
    (none when it is absent) and nothing else: every other entity keeps
    its number of occurrences, the remaining entities keep their order,
    and the rest of the scene is untouched.  An entity added twice is
    therefore still in the scene after one removal. *)
Theorem remove_entity_removes_one (e : Entity) (s : Scene World) :
  (forall e', count_occ Nat.eq_dec (entities (remove_entity e s)) e'
              = (count_occ Nat.eq_dec (entities s) e'
                 - if Nat.eqb e' e then 1 else 0)%nat)
  /\ sublist (entities (remove_entity e s)) (entities s)
  /\ world (remove_entity e s) = world s.
Proof.
  unfold remove_entity.
  destruct (existsb (Nat.eqb e) (entities s)) eqn:Hin; simpl.
  - split; [|split]; [|apply list_remove_sublist|reflexivity].
    intros e'. apply list_remove_count.
  - split; [|split]; [|reflexivity|reflexivity].
    intros e'. destruct (Nat.eqb_spec e' e) as [->|_]; [|lia].
    rewrite (existsb_eqb_false _ _ Hin). reflexivity.
Qed.

Lemma list_remove_app_fresh (e : Entity) (l : list Entity) :
  e ∉ l -> list_remove e (l ++ [e]) = l.
Proof.
  induction l as [|a l IH]; simpl; intros Hnotin.
  - rewrite Nat.eqb_refl. reflexivity.
  - destruct (Nat.eqb_spec a e) as [->|Hne].
    + exfalso. apply Hnotin. left.
    + rewrite IH; [reflexivity|]. intros Hin. apply Hnotin. right. exact Hin.
Qed.

(** X7: adding an entity that is not yet in the scene and removing it
    again gives back the scene as it was. *)
Theorem add_then_remove_entity (e : Entity) (s : Scene World) :
  e ∉ entities s ->
  remove_entity e (add_entity e s) = s.
Proof.
  intros Hnotin. unfold remove_entity, add_entity. simpl.
  rewrite existsb_app. simpl. rewrite Nat.eqb_refl. simpl. rewrite orb_true_r.
  rewrite (list_remove_app_fresh _ _ Hnotin). destruct s; reflexivity.
Qed.
End SceneMembership.

(** Entity 5 joins and leaves a scene holding 1 and 2. *)
Lemma add_then_remove_entity_witness :
  SceneGraph.remove_entity 5%nat
    (SceneGraph.add_entity 5%nat (SceneGraph.mkScene [1; 2]%nat tt))
  = SceneGraph.mkScene [1; 2]%nat tt.
Proof.
  apply (add_then_remove_entity 5%nat (SceneGraph.mkScene [1; 2]%nat tt)).
  simpl. intros Hin. apply elem_of_cons in Hin as [Heq|Hin]; [discriminate|].
  apply elem_of_cons in Hin as [Heq|Hin]; [discriminate|].
  inversion Hin.
Defined.

(** ** Animation construction *)

Section AnimationConstruction.
Import Sprites.

(** The rectangle the constructor computes for frame [i]. *)
Lemma frame_rects_map (frames_per_row fw fh : Z) (idx : list Z) :
  frames_per_row <> 0 ->
  frame_rects frames_per_row fw fh idx
  = Ok (map (fun i => mkRect (i mod frames_per_row * fw)
                             (i / frames_per_row * fh) fw fh) idx).
Proof.
  intros Hrow. induction idx as [|i idx IH]; simpl; [reflexivity|].
  rewrite IH. unfold frame_rect, pymod, floordiv.
  destruct (Z.eqb_spec frames_per_row 0); [contradiction|reflexivity].
Qed.

Lemma new_animation_ok (sheet : string) (sheet_width fw fh count : Z)
      (duration : float) :
  fw <> 0 -> sheet_width / fw <> 0 ->
  new_animation sheet sheet_width fw fh count duration
  = Ok (mkAnimation sheet fw fh count duration
          (map (fun i => mkRect (i mod (sheet_width / fw) * fw)
                                (i / (sheet_width / fw) * fh) fw fh)
               (seqZ 0 count))
          0 0 false true).
Proof.
  intros Hfw Hrow. unfold new_animation, floordiv.
  destruct (Z.eqb_spec fw 0); [contradiction|]. simpl.
  rewrite (frame_rects_map _ _ _ _ Hrow). reflexivity.
Qed.


(** X9: the constructor's failures.  A zero frame width raises
    ZeroDivisionError; so does a sheet narrower than one frame (zero
    frames per row) as soon as one frame is asked for.  With a non-zero
    frame width and no frame asked for (a count of zero or less) it
    returns a clip without rectangles, whatever the sheet. *)
Theorem new_animation_failures (sheet : string)
        (sheet_width fw fh count : Z) (duration : float) :
  (fw = 0 ->
   new_animation sheet sheet_width fw fh count duration = Raise ZeroDivisionError)
  /\ (fw <> 0 -> sheet_width / fw = 0 -> 0 < count ->
      new_animation sheet sheet_width fw fh count duration = Raise ZeroDivisionError)
  /\ (fw <> 0 -> count <= 0 ->
      exists a, new_animation sheet sheet_width fw fh count duration = Ok a
                /\ frames a = []).
Proof.
  unfold new_animation, floordiv. split; [|split].
  - intros ->. reflexivity.
  - intros Hfw Hrow Hcount.
    destruct (Z.eqb_spec fw 0); [contradiction|]. simpl. rewrite Hrow.
    destruct count as [|p|p]; try lia.
    unfold seqZ. destruct (Z.to_nat (Z.pos p)) eqn:Hn; [lia|].
    simpl. reflexivity.
  - intros Hfw Hcount.
    destruct (Z.eqb_spec fw 0); [contradiction|]. simpl.
    assert (Hnil : seqZ 0 count = []).
    { unfold seqZ. replace (Z.to_nat count) with 0%nat by lia. reflexivity. }
    rewrite Hnil. simpl. eexists. split; reflexivity.
Qed.

(** X10: with a positive frame width on a sheet at least that wide, and
    a non-negative frame height, every rectangle the constructor
    computes lies within the sheet's width and starts at non-negative
    coordinates: no frame sticks out to the left, to the right or
    above. *)
Theorem new_animation_frames_within_sheet (sheet : string)
        (sheet_width fw fh count : Z) (duration : float) (a : Animation) :
  0 < fw <= sheet_width -> 0 <= fh ->
  new_animation sheet sheet_width fw fh count duration = Ok a ->
  Forall (fun r => 0 <= rect_x r
                   /\ rect_x r + rect_w r <= sheet_width
                   /\ 0 <= rect_y r) (frames a).
Proof.
  intros Hfw Hfh Hnew.
  assert (Hrow : 0 < sheet_width / fw) by (apply Z.div_str_pos; lia).
  rewrite new_animation_ok in Hnew by lia. injection Hnew as <-. simpl.
  apply Forall_fmap, Forall_forall. intros i Hi. simpl.
  apply elem_of_seqZ in Hi.
  pose proof (Z.mod_pos_bound i (sheet_width / fw) Hrow) as Hmod.
  pose proof (Z.mul_div_le sheet_width fw ltac:(lia)) as Hle.
  assert (0 <= i / (sheet_width / fw)) by (apply Z.div_pos; lia).
  split; [nia|]. split; [nia|nia].
Qed.
End AnimationConstruction.


(** The same frames: all within the 64-pixel width. *)
Lemma new_animation_frames_within_sheet_witness :
  exists a,
    Sprites.new_animation "walk.png" 64 32 32 4 0.1 = Ok a
    /\ Forall (fun r => 0 <= rect_x r /\ rect_x r + rect_w r <= 64 /\ 0 <= rect_y r)
              (Sprites.frames a).
Proof.
  destruct (Sprites.new_animation "walk.png" 64 32 32 4 0.1) as [a|] eqn:Hnew;
    [|discriminate Hnew].
  exists a. split; [reflexivity|].
  apply (new_animation_frames_within_sheet "walk.png" 64 32 32 4 0.1 a);
    [lia|lia|exact Hnew].
Defined.

(** ** Animated sprites in general *)

Section AnimatedSpriteFacts.
Import Sprites Extras.
Context {Surface : Type}.
Implicit Types (s : AnimatedSprite Surface) (a : Animation).

Lemma tick_well_formed a (dt : float) :
  well_formed a ->
  well_formed (tick dt a)
  /\ frames (tick dt a) = frames a
  /\ frame_count (tick dt a) = frame_count a
  /\ (current_frame (tick dt a) = current_frame a
      \/ current_frame (tick dt a) = current_frame a + 1
      \/ (current_frame (tick dt a) = 0 /\ is_looping a = true)).
Proof.
  intros [Hlen Hcf]. unfold well_formed, tick.
  destruct (PrimFloat.leb (frame_duration a) (time_accumulated a + dt)); simpl.
  - destruct (Z.leb_spec (frame_count a) (current_frame a + 1)); simpl.
    + destruct (is_looping a); simpl; repeat split; auto; lia.
    + repeat split; auto; lia.
  - repeat split; auto; lia.
Qed.

(** X11: on a sprite whose active clip is well formed (one rectangle per
    frame, frame index among them) [update] never raises, for any delta
    time and whether the clip loops, plays or is stopped.  The clip stays
    well formed with the same rectangles; its frame index stays, moves
    on by one, or (looping only) wraps to 0; every other clip of the
    sprite is left as it was; and while the clip plays the sprite's
    source rectangle is the rectangle of the resulting frame. *)
Theorem update_keeps_well_formed s (name : string) a (dt : float) :
  active s name a -> well_formed a ->
  exists s' a',
    update dt s = Ok s'
    /\ active s' name a' /\ well_formed a'
    /\ frames a' = frames a
    /\ (current_frame a' = current_frame a
        \/ current_frame a' = current_frame a + 1
        \/ (current_frame a' = 0 /\ is_looping a = true))
    /\ (forall other, other <> name ->
                      animations s' !! other = animations s !! other)
    /\ (is_playing a = true ->
        exists r, src_rect (sprite s') = Some r
                  /\ frames a !! Z.to_nat (current_frame a') = Some r).
Proof.
  intros (Hcur & Hname & Hlook) Hwf.
  unfold update. rewrite Hcur.
  apply String.eqb_neq in Hname. rewrite Hname, Hlook.
  apply String.eqb_neq in Hname.
  destruct (is_playing a) eqn:Hplay; simpl.
  - destruct (tick_well_formed a dt Hwf) as (Hwf' & Hfr & Hcount & Hstep).
    destruct (getitem_in_range (frames (tick dt a)) (current_frame (tick dt a)))
      as (r & Hget & Hr).
    { destruct Hwf' as [Hlen Hcf]. rewrite Hlen. lia. }
    rewrite Hget. simpl. eexists _, (tick dt a). split; [reflexivity|].
    split; [|split; [exact Hwf'|split; [exact Hfr|split; [exact Hstep|split]]]].
    + unfold active. simpl. rewrite lookup_insert_eq. auto.
    + intros other Hne. simpl. apply lookup_insert_ne. congruence.
    + intros _. exists r. simpl. rewrite <- Hfr. auto.
  - exists s, a. split; [reflexivity|].
    split; [unfold active; auto|]. split; [exact Hwf|]. split; [reflexivity|].
    split; [left; reflexivity|]. split; [reflexivity|discriminate].
Qed.

(** X12: a stopped clip stays as it is: whatever delta times are fed,
    every [update] returns the sprite unchanged, so the frame index
    reported after each call is the one the clip stopped at. *)
Theorem stopped_clip_is_inert s (name : string) a (dts : list float) :
  active s name a -> is_playing a = false ->
  updates dts s = Ok (map (fun _ => Some (current_frame a)) dts, s).
Proof.
  intros (Hcur & Hname & Hlook) Hstop.
  assert (Hone : forall dt, update dt s = Ok s).
  { intros dt. unfold update. rewrite Hcur.
    apply String.eqb_neq in Hname. rewrite Hname, Hlook, Hstop. reflexivity. }
  assert (Hfr : active_frame s = Some (current_frame a)).
  { unfold active_frame. rewrite Hcur. simpl. rewrite Hlook. reflexivity. }
  induction dts as [|dt dts IH]; simpl; [reflexivity|].
  rewrite Hone. simpl. rewrite IH. simpl. rewrite Hfr. reflexivity.
Qed.

(** X13: a playing clip that does not loop, on its last frame: the
    update that completes the frame's duration stops the clip and
    leaves it on the last frame (it does not wrap and does not run
    past the end), with the accumulator reset; the sprite shows the
    last frame's rectangle. *)
Theorem non_looping_clip_stops_at_last_frame s (name : string) a (dt : float) :
  active s name a -> well_formed a ->
  is_playing a = true -> is_looping a = false ->
  current_frame a = frame_count a - 1 ->
  PrimFloat.leb (frame_duration a) (time_accumulated a + dt) = true ->
  exists s' a',
    update dt s = Ok s'
    /\ active s' name a'
    /\ is_playing a' = false
    /\ current_frame a' = frame_count a - 1
    /\ time_accumulated a' = 0%float
    /\ src_rect (sprite s') = frames a !! Z.to_nat (frame_count a - 1).
Proof.
  intros (Hcur & Hname & Hlook) [Hlen Hcf] Hplay Hloop Hlast Hdue.
  assert (Htick : tick dt a
                  = set_playback (frame_count a - 1) 0 false false a).
  { unfold tick. rewrite Hdue, Hloop, Hlast.
    destruct (Z.leb_spec (frame_count a) (frame_count a - 1 + 1)); [reflexivity|lia]. }
  destruct (getitem_in_range (frames a) (frame_count a - 1)) as (r & Hget & Hr);
    [lia|].
  unfold update. rewrite Hcur.
  apply String.eqb_neq in Hname. rewrite Hname, Hlook, Hplay. simpl.
  apply String.eqb_neq in Hname.
  rewrite Htick. simpl. rewrite Hget. simpl.
  eexists _, _. split; [reflexivity|].
  unfold active. simpl. rewrite lookup_insert_eq. repeat split; auto.
Qed.

(** X14: [add_animation] starts the first clip added to a sprite that
    has no active clip: it becomes the active clip, playing and looping
    from frame 0 with an empty accumulator.  On a sprite that already
    has an active clip the new clip is only stored, exactly as given,
    and the active clip's name does not change. *)
Theorem add_animation_starts_first_clip s (name : string) a :
  name <> ""%string ->
  (name_truthy (current_animation s) = false ->
   active (add_animation name a s) name (set_playback 0 0 true true a))
  /\ (name_truthy (current_animation s) = true ->
      current_animation (add_animation name a s) = current_animation s
      /\ animations (add_animation name a s) !! name = Some a).
Proof.
  intros Hname. unfold add_animation. simpl. split; intros Hcur; rewrite Hcur.
  - unfold play_animation, active. simpl. rewrite lookup_insert_eq. simpl.
    rewrite lookup_insert_eq. auto.
  - simpl. rewrite lookup_insert_eq. auto.
Qed.

(** X15: [play_animation] with a name the sprite has no clip for
    changes nothing.  With a known name it makes that clip the active
    one, restarted at frame 0 with an empty accumulator, playing, with
    the requested looping mode; every other clip, the previously active
    one included, keeps its state: it is neither stopped nor rewound. *)
Theorem play_animation_restarts_only_that_clip s (name : string) (loop : bool) :
  match animations s !! name with
  | None => play_animation name loop s = s
  | Some a =>
      current_animation (play_animation name loop s) = Some name
      /\ animations (play_animation name loop s) !! name
         = Some (set_playback 0 0 true loop a)
      /\ (forall other, other <> name ->
            animations (play_animation name loop s) !! other
            = animations s !! other)
      /\ sprite (play_animation name loop s) = sprite s
  end.
Proof.
  unfold play_animation. destruct (animations s !! name) as [a|]; [|reflexivity].
  simpl. split; [reflexivity|]. split; [apply lookup_insert_eq|].
  split; [|reflexivity]. intros other Hne. apply lookup_insert_ne. congruence.
Qed.
End AnimatedSpriteFacts.

Lemma sprite_with_active (a : Sprites.Animation) :
  Sprites.active (Extras.sprite_with a) "walk" a.
Proof.
  split; [reflexivity|]. split; [discriminate|]. apply lookup_singleton_eq.
Qed.

(** A looping clip on frame 3, stepped by a quarter of a second. *)
Lemma update_keeps_well_formed_witness :
  exists s' a',
    Sprites.update 0.25 (Extras.sprite_with (Extras.clip 3 true true)) = Ok s'
    /\ Sprites.active s' "walk" a'
    /\ Extras.well_formed a'.
Proof.
  destruct (update_keeps_well_formed
              (Extras.sprite_with (Extras.clip 3 true true)) "walk"
              (Extras.clip 3 true true) 0.25)
    as (s' & a' & Hrun & Hact & Hwf & _).
  - apply sprite_with_active.
  - split; [reflexivity|simpl; lia].
  - exists s', a'. auto.
Defined.

(** A stopped clip on frame 3, fed three delta times. *)
Lemma stopped_clip_is_inert_witness :
  Sprites.updates [0.1; 5; 0.3]%float (Extras.sprite_with (Extras.clip 3 false false))
  = Ok ([Some 3; Some 3; Some 3], Extras.sprite_with (Extras.clip 3 false false)).
Proof.
  apply (stopped_clip_is_inert (Extras.sprite_with (Extras.clip 3 false false))
                               "walk" (Extras.clip 3 false false)
                               [0.1; 5; 0.3]%float).
  - apply sprite_with_active.
  - reflexivity.
Defined.

(** A non-looping clip on its last frame, stepped by 0.1 s. *)
Lemma non_looping_clip_stops_at_last_frame_witness :
  exists s' a',
    Sprites.update 0.1 (Extras.sprite_with (Extras.clip 3 true false)) = Ok s'
    /\ Sprites.active s' "walk" a'
    /\ Sprites.is_playing a' = false
    /\ Sprites.current_frame a' = 3.
Proof.
  destruct (non_looping_clip_stops_at_last_frame
              (Extras.sprite_with (Extras.clip 3 true false)) "walk"
              (Extras.clip 3 true false) 0.1)
    as (s' & a' & Hrun & Hact & Hstop & Hcf & _).
  - apply sprite_with_active.
  - split; [reflexivity|simpl; lia].
  - reflexivity.
  - reflexivity.
  - reflexivity.
  - reflexivity.
  - exists s', a'. auto.
Defined.

(** A first clip added under the name "walk". *)
Lemma add_animation_starts_first_clip_witness :
  Sprites.active
    (Sprites.add_animation "walk" (Extras.clip 2 false false)
       (Sprites.mkAnimatedSprite (Sprites.plain_sprite 0 0) ∅ None))
    "walk" (Extras.clip 0 true true).
Proof.
  apply (proj1 (add_animation_starts_first_clip
                  (Sprites.mkAnimatedSprite (Sprites.plain_sprite 0 0) ∅ None)
                  "walk" (Extras.clip 2 false false) ltac:(discriminate))).
  reflexivity.
Defined.

(** ** Forces *)

Section ForceFacts.
Import Physics.

(** X16: on a non-static body [apply_force] adds force over mass to
    each acceleration component and touches nothing else; forces
    applied one after the other accumulate.  With a mass of zero
    (either sign) it raises ZeroDivisionError instead. *)
Theorem apply_force_accumulates (b : PhysicsBody) (fx fy ax ay : float) :
  is_static b = false ->
  acceleration b = [ax; ay] ->
  (PrimFloat.eqb (mass b) 0 = false ->
   apply_force fx fy b
   = Ok (mkBody (entity b) (velocity b)
                [ax + fx / mass b; ay + fy / mass b]%float
                (mass b) (gravity_scale b) (friction b) (restitution b)
                (is_static b)))
  /\ (PrimFloat.eqb (mass b) 0 = true ->
      apply_force fx fy b = Raise ZeroDivisionError).
Proof.
  intros Hs Ha. unfold apply_force, truediv. rewrite Hs, Ha.
  split; intros Hm; rewrite Hm; reflexivity.
Qed.

(** X17: a force applied before a step acts in that step and is then
    gone: after [apply_force] followed by [update], the velocity has
    integrated the stored acceleration plus force over mass (and
    gravity, vertically) and been damped, the position has moved by the
    new velocity, and the acceleration is back to zero. *)
Theorem force_then_step (b : PhysicsBody) (fx fy dt px py vx vy ax ay : float) :
  is_static b = false ->
  PrimFloat.eqb (mass b) 0 = false ->
  kinematic b = Some (mkKinematic (px, py) (vx, vy) (ax, ay)) ->
  exists b',
    calls [ApplyForce fx fy; Update dt] b = Ok b'
    /\ (let vx' := ((vx + (ax + fx / mass b) * dt) * (1 - friction b))%float in
        let vy' := ((vy + (ay + fy / mass b + 9.81 * gravity_scale b) * dt)
                    * (1 - friction b))%float in
        velocity b' = [vx'; vy']
        /\ x (entity b') = (px + vx' * dt)%float
        /\ y (entity b') = (py + vy' * dt)%float)
    /\ acceleration b' = [0; 0]%float.
Proof.
  intros Hs Hm Hk. destruct b as [e v a m g f r st]. simpl in *. subst st.
  unfold kinematic in Hk. simpl in Hk.
  destruct v as [|vx0 [|vy0 [|? ?]]]; try discriminate.
  destruct a as [|ax0 [|ay0 [|? ?]]]; try discriminate.
  injection Hk as <- <- <- <- <- <-.
  unfold apply_force, truediv. simpl. rewrite Hm. simpl.
  eexists. split; [reflexivity|]. repeat split.
Qed.
End ForceFacts.

(** A default body pushed sideways once. *)
Lemma apply_force_accumulates_witness :
  Physics.apply_force 3 4 (Physics.new_body (new_entity 0 0))
  = Ok (Physics.mkBody (new_entity 0 0) [0; 0]%float [3; 4]%float 1 1 0.1 0.5 false).
Proof.
  rewrite (proj1 (apply_force_accumulates
                    (Physics.new_body (new_entity 0 0)) 3 4 0 0 eq_refl eq_refl)
                 eq_refl).
  reflexivity.
Defined.

(** A default body pushed, then stepped by a sixtieth of a second. *)
Lemma force_then_step_witness :
  exists b',
    Physics.calls [Physics.ApplyForce 3 4; Physics.Update (1 / 60)]
                  (Physics.new_body (new_entity 0 0)) = Ok b'
    /\ Physics.acceleration b' = [0; 0]%float.
Proof.
  destruct (force_then_step (Physics.new_body (new_entity 0 0))
                            3 4 (1 / 60) 0 0 0 0 0 0 eq_refl eq_refl eq_refl)
    as (b' & Hrun & _ & Hacc).
  exists b'. auto.
Defined.

(** ** Circle collision in machine arithmetic *)

(** *** Sign-insensitive facts about the float operations *)

Lemma binary_round_aux_abs (s1 s2 : bool) (m e : Z) (l : location) :
  SFabs (binary_round_aux prec emax s1 m e l)
  = SFabs (binary_round_aux prec emax s2 m e l).
Proof.
  unfold binary_round_aux.
  destruct (shr_fexp prec emax m e l) as [mrs e'].
  destruct (shr_fexp prec emax _ e' loc_Exact) as [mrs' e''].
  destruct (shr_m mrs'); simpl; try reflexivity.
  destruct (e'' <=? emax - prec); reflexivity.
Qed.

Lemma binary_normalize_opp_abs (z e : Z) :
  SFabs (binary_normalize prec emax (- z) e false)
  = SFabs (binary_normalize prec emax z e false).
Proof.
  destruct z as [|p|p]; simpl; [reflexivity| |]; unfold binary_round;
    destruct (shl_align _ _ _) as [mz ez]; apply binary_round_aux_abs.
Qed.

Lemma SFsub_swap_abs (u v : spec_float) :
  SFabs (SFsub prec emax u v) = SFabs (SFsub prec emax v u).
Proof.
  destruct u as [[]|[]| |su mu eu], v as [[]|[]| |sv mv ev]; simpl;
    try reflexivity.
  rewrite (Z.min_comm ev eu), <- binary_normalize_opp_abs.
  f_equal. f_equal. lia.
Qed.

Lemma SFmul_self_abs (u v : spec_float) :
  SFabs u = SFabs v -> SFmul prec emax u u = SFmul prec emax v v.
Proof.
  destruct u as [[]|[]| |[] mu eu], v as [[]|[]| |[] mv ev]; simpl;
    intros [=]; subst; reflexivity.
Qed.

Lemma SFadd_comm (u v : spec_float) :
  SFadd prec emax u v = SFadd prec emax v u.
Proof.
  destruct u as [[]|[]| |su mu eu], v as [[]|[]| |sv mv ev]; simpl;
    try reflexivity.
  rewrite (Z.min_comm ev eu), Z.add_comm. reflexivity.
Qed.

Lemma SFsqrt_not_negative (u : spec_float) :
  sf_not_negative (SFsqrt prec emax u).
Proof.
  destruct u as [[]|[]| |[] m e]; simpl; try exact I.
  destruct (SFsqrt_core_binary prec emax (Z.pos m) e) as [[mz ez] lz].
  apply binary_round_aux_not_negative.
Qed.

Lemma not_negative_not_below (u v : spec_float) :
  sf_not_negative u -> SFleb v (S754_zero false) = true -> SFltb u v = false.
Proof.
  destruct u as [[]|[]| |[] mu eu], v as [[]|[]| |[] mv ev]; simpl;
    intros Hu Hv; try contradiction; try discriminate; reflexivity.
Qed.

Lemma square_of_difference_sym (a b : float) :
  ((a - b) * (a - b) = (b - a) * (b - a))%float.
Proof.
  apply Prim2SF_inj. rewrite !mul_spec, !sub_spec.
  apply SFmul_self_abs, SFsub_swap_abs.
Qed.

Lemma float_add_comm (a b : float) : (a + b = b + a)%float.
Proof.
  apply Prim2SF_inj. rewrite !add_spec. apply SFadd_comm.
Qed.

Section CircleFacts.
Import Collision.
Variable colliderect : Bounds -> Bounds -> bool.

(** X18: the circle test is symmetric: asking collider A about B and B
    about A gives the same answer, bit for bit, for all positions,
    offsets and radii (infinities and NaN included). *)
Theorem circle_collision_symmetric (e1 e2 : Entity)
        (ox1 oy1 r1 ox2 oy2 r2 : float) :
  collides_with colliderect (CircleCollider e1 ox1 oy1 r1)
                            (CircleCollider e2 ox2 oy2 r2)
  = collides_with colliderect (CircleCollider e2 ox2 oy2 r2)
                              (CircleCollider e1 ox1 oy1 r1).
Proof.
  rewrite !circle_circle. unfold euclidean.
  rewrite (square_of_difference_sym (x e1) (x e2)),
          (square_of_difference_sym (y e1) (y e2)),
          (float_add_comm r1 r2).
  reflexivity.
Qed.

(** X19: two circle colliders whose radii do not add up to more than
    zero never collide, wherever they are: in particular two
    zero-radius colliders at the very same position are reported as
    not colliding. *)
Theorem degenerate_circles_never_collide (e1 e2 : Entity)
        (ox1 oy1 r1 ox2 oy2 r2 : float) :
  PrimFloat.leb (r1 + r2) 0 = true ->
  collides_with colliderect (CircleCollider e1 ox1 oy1 r1)
                            (CircleCollider e2 ox2 oy2 r2)
  = Ok false.
Proof.
  intros Hsum. rewrite circle_circle. f_equal. unfold euclidean.
  rewrite leb_spec in Hsum. change (Prim2SF 0) with (S754_zero false) in Hsum.
  rewrite ltb_spec, sqrt_spec.
  apply not_negative_not_below; [apply SFsqrt_not_negative|exact Hsum].
Qed.

(** X20: a NaN in either entity's position or in either radius makes
    the circle test answer [False]; it does not raise. *)
Theorem nan_circles_never_collide (e1 e2 : Entity)
        (ox1 oy1 r1 ox2 oy2 r2 : float) :
  x e1 = nan \/ y e1 = nan \/ x e2 = nan \/ y e2 = nan \/ r1 = nan \/ r2 = nan ->
  collides_with colliderect (CircleCollider e1 ox1 oy1 r1)
                            (CircleCollider e2 ox2 oy2 r2)
  = Ok false.
Proof.
  intros Hnan. rewrite circle_circle. f_equal. unfold euclidean.
  rewrite ltb_spec, sqrt_spec, !add_spec, !mul_spec, !sub_spec.
  unfold SF64add, SF64mul, SF64sub, SF64sqrt.
  destruct Hnan as [H|[H|[H|[H|[H|H]]]]]; rewrite H;
    change (Prim2SF nan) with S754_nan.
  - reflexivity.
  - simpl. destruct (SFmul prec emax _ _); reflexivity.
  - destruct (Prim2SF (x e1)) as [[]|[]| |[] ? ?]; reflexivity.
  - destruct (Prim2SF (y e1)) as [[]|[]| |[] ? ?]; simpl;
      destruct (SFmul prec emax _ _); reflexivity.
  - simpl. destruct (SFsqrt prec emax _) as [[]|[]| |[] ? ?]; reflexivity.
  - destruct (Prim2SF r1) as [[]|[]| |[] ? ?]; simpl;
      destruct (SFsqrt prec emax _) as [[]|[]| |[] ? ?]; reflexivity.
Qed.

(** X21: [collides_with] raises exactly when it is called on the base
    class, and then NotImplementedError; called on a box or a circle it
    always returns a boolean, whatever the other shape is, and that
    boolean is [False] whenever the other shape is of a different
    class (the base class included). *)
Theorem collides_with_raises_only_on_base (self other : CollisionShape) :
  match self with
  | Shape _ _ _ => collides_with colliderect self other = Raise NotImplementedError
  | BoxCollider _ _ _ _ _ =>
      exists verdict, collides_with colliderect self other = Ok verdict
                      /\ match other with
                         | BoxCollider _ _ _ _ _ => True
                         | _ => verdict = false
                         end
  | CircleCollider _ _ _ _ =>
      exists verdict, collides_with colliderect self other = Ok verdict
                      /\ match other with
                         | CircleCollider _ _ _ _ => True
                         | _ => verdict = false
                         end
  end.
Proof.
  destruct self, other; try reflexivity; try (eexists; split; [reflexivity|auto]).
  rewrite circle_circle. eexists. split; [reflexivity|exact I].
Qed.
End CircleFacts.

(** Two point colliders on the same spot. *)
Lemma degenerate_circles_never_collide_witness :
  Collision.collides_with (fun _ _ => true)
    (Collision.CircleCollider (new_entity 3 4) 0 0 0)
    (Collision.CircleCollider (new_entity 3 4) 0 0 0) = Ok false.
Proof.
  apply (degenerate_circles_never_collide (fun _ _ => true)
           (new_entity 3 4) (new_entity 3 4) 0 0 0 0 0 0).
  reflexivity.
Defined.

(** A collider whose entity has a NaN abscissa, against a huge circle. *)
Lemma nan_circles_never_collide_witness :
  Collision.collides_with (fun _ _ => true)
    (Collision.CircleCollider (new_entity nan 0) 0 0 5)
    (Collision.CircleCollider (new_entity 0 0) 0 0 infinity) = Ok false.
Proof.
  apply (nan_circles_never_collide (fun _ _ => true)
           (new_entity nan 0) (new_entity 0 0) 0 0 5 0 0 infinity).
  left. reflexivity.
Defined.

(** ** Buttons over event sequences *)

Section ButtonSequences.
Import UI Extras.
Variable invoke : Callable -> Button -> Button.

(** X22: a disabled button ignores everything: whatever events arrive,
    wherever the mouse is, no callback runs and no field changes (not
    even the hover flag, and a press armed before disabling stays
    armed). *)
Theorem disabled_button_is_inert (b : Button)
        (inputs : list ((float * float) * Event)) :
  enabled (ui b) = false ->
  deliver invoke inputs b = (b, []).
Proof.
  intros Hdis. induction inputs as [|[mouse_pos event] inputs IH]; simpl.
  - reflexivity.
  - assert (Hone : handle_event invoke mouse_pos event b = (b, [])).
    { unfold handle_event. rewrite Hdis. reflexivity. }
    rewrite Hone. simpl. rewrite IH. reflexivity.
Qed.

Lemma handle_event_quiet (b : Button) (mouse_pos : float * float) (event : Event) :
  is_pressed b = false ->
  event <> MOUSEBUTTONDOWN 1 ->
  let r := handle_event invoke mouse_pos event b in
  r.2 = [] /\ is_pressed r.1 = false /\ ui r.1 = ui b.
Proof.
  intros Hp Hev. unfold handle_event.
  destruct (enabled (ui b)); simpl; [|auto].
  destruct event as [ |k|k| |button|button]; simpl; auto.
  - destruct button as [|[p|p|]|p]; simpl; auto. congruence.
  - destruct button as [|[p|p|]|p]; simpl; auto.
    rewrite Hp. simpl. destruct (on_click b); simpl; auto.
Qed.

(** X23: without a press there is no click: on a button that is not
    pressed, a sequence of events that contains no left-button-down
    runs no callback and leaves the button unpressed, however many
    left-button-up events it holds and wherever the mouse is. *)
Theorem no_press_no_click (b : Button) (inputs : list ((float * float) * Event)) :
  is_pressed b = false ->
  Forall (fun input => input.2 <> MOUSEBUTTONDOWN 1) inputs ->
  let r := deliver invoke inputs b in
  r.2 = [] /\ is_pressed r.1 = false.
Proof.
  revert b. induction inputs as [|[mouse_pos event] inputs IH]; intros b Hp Hall; simpl.
  - auto.
  - inversion Hall as [|? ? Hev Hrest]; subst. simpl in Hev.
    destruct (handle_event_quiet b mouse_pos event Hp Hev) as (Hfired & Hp' & _).
    destruct (IH _ Hp' Hrest) as [Hfired' Hp''].
    rewrite Hfired, Hfired'. auto.
Qed.

(** X24: a complete click: on an enabled, unpressed button with a
    callback, a left-button-down and a left-button-up, both with the
    mouse inside the bounds, run the callback exactly once, at the
    release; the button ends unpressed, so a second release right
    after, even inside the bounds, does not run it again. *)
Theorem click_inside_fires_once (b : Button) (f : Callable)
        (p1 p2 p3 : float * float) :
  enabled (ui b) = true ->
  is_pressed b = false ->
  on_click b = Some f ->
  contains_point (ui b) p1 = true ->
  contains_point (ui b) p2 = true ->
  let r := deliver invoke [(p1, MOUSEBUTTONDOWN 1); (p2, MOUSEBUTTONUP 1);
                           (p3, MOUSEBUTTONUP 1)] b in
  r.2 = [f] /\ is_pressed r.1 = false.
Proof.
  intros Hen Hp Hclick Hin1 Hin2. simpl.
  assert (Hdown : handle_event invoke p1 (MOUSEBUTTONDOWN 1) b
                  = (set_pressed true (set_hovered true b), [])).
  { unfold handle_event. rewrite Hen. simpl. rewrite Hin1. reflexivity. }
  rewrite Hdown. simpl.
  assert (Hup : handle_event invoke p2 (MOUSEBUTTONUP 1)
                             (set_pressed true (set_hovered true b))
                = (set_pressed false
                     (invoke f (set_hovered true (set_pressed true (set_hovered true b)))),
                   [f])).
  { unfold handle_event. simpl. rewrite Hen. simpl. rewrite Hin2, Hclick. reflexivity. }
  rewrite Hup. simpl.
  destruct (handle_event_quiet
              (set_pressed false
                 (invoke f (set_hovered true (set_pressed true (set_hovered true b)))))
              p3 (MOUSEBUTTONUP 1) eq_refl ltac:(discriminate))
    as (Hfired & Hp' & _).
  rewrite Hfired. auto.
Qed.
End ButtonSequences.

(** A disabled button sent a full click. *)
Lemma disabled_button_is_inert_witness :
  let b := UI.mkButton (UI.mkUIElement (mkEntity 0 0 100 50 0 1 true) None 5 false)
                       false true (Some 0%nat) in
  Extras.deliver (fun _ b => b)
    [((1, 1)%float, UI.MOUSEBUTTONDOWN 1); ((1, 1)%float, UI.MOUSEBUTTONUP 1)] b
  = (b, []).
Proof.
  intros b.
  apply (disabled_button_is_inert (fun _ b => b) b
           [((1, 1)%float, UI.MOUSEBUTTONDOWN 1); ((1, 1)%float, UI.MOUSEBUTTONUP 1)]).
  reflexivity.
Defined.

(** Releases, a right-button press and a key on an unpressed button. *)
Lemma no_press_no_click_witness :
  let b := UI.mkButton (UI.new_element 0 0 100 50) false false (Some 0%nat) in
  let r := Extras.deliver (fun _ b => b)
             [((1, 1)%float, UI.MOUSEBUTTONUP 1);
              ((1, 1)%float, UI.MOUSEBUTTONDOWN 3);
              ((1, 1)%float, UI.KEYDOWN 32);
              ((2, 2)%float, UI.MOUSEBUTTONUP 1)] b in
  r.2 = [] /\ UI.is_pressed r.1 = false.
Proof.
  intros b.
  apply (no_press_no_click (fun _ b => b) b); [reflexivity|].
  repeat constructor; discriminate.
Defined.

(** A click at (10, 10) on a 100 by 50 button at the origin. *)
Lemma click_inside_fires_once_witness :
  let b := UI.mkButton (UI.new_element 0 0 100 50) false false (Some 7%nat) in
  let r := Extras.deliver (fun _ b => b)
             [((10, 10)%float, UI.MOUSEBUTTONDOWN 1);
              ((10, 12)%float, UI.MOUSEBUTTONUP 1);
              ((10, 12)%float, UI.MOUSEBUTTONUP 1)] b in
  r.2 = [7%nat] /\ UI.is_pressed r.1 = false.
Proof.
  intros b.
  apply (click_inside_fires_once (fun _ b => b) b 7%nat
           (10, 10)%float (10, 12)%float (10, 12)%float); reflexivity.
Defined.

(** ** Widget geometry and layouts *)

Section WidgetFacts.
Import UI Extras.

Lemma climb_fold :
  forall (u : UIElement) (ax ay : float),
    climb u ax ay
    = fold_left (fun acc p => (acc.1 + x (base p), acc.2 + y (base p))%float)
                (ancestors u) (ax, ay).
Proof.
  fix IH 1. intros [b [p|] pad en] ax ay; simpl.
  - apply IH.
  - reflexivity.
Qed.

(** X25: the absolute position of a widget is its local position plus
    the local positions of all its ancestors, added one after the other
    from the parent up to the root; a widget without parent is at its
    local position. *)
Theorem absolute_position_sums_ancestors (u : UIElement) :
  get_absolute_position u
  = fold_left (fun acc p => (acc.1 + x (base p), acc.2 + y (base p))%float)
              (ancestors u) (x (base u), y (base u))
  /\ (parent u = None -> get_absolute_position u = (x (base u), y (base u))).
Proof.
  unfold get_absolute_position. split; [apply climb_fold|].
  intros Hroot. destruct u as [b p pad en]. simpl in *. subst p. reflexivity.
Qed.

Lemma place_vertical_spec (spacing : float) (cs : list UIElement) :
  forall current_y,
    length (place_vertical spacing current_y cs) = length cs
    /\ map size (place_vertical spacing current_y cs) = map size cs
    /\ map parent (place_vertical spacing current_y cs) = map parent cs
    /\ Forall (fun c => x (base c) = 0%float) (place_vertical spacing current_y cs).
Proof.
  induction cs as [|c cs IH]; intros current_y; simpl.
  - repeat split; constructor.
  - destruct (IH (current_y + (height (base c) + spacing))%float)
      as (Hlen & Hsize & Hpar & Hx).
    rewrite Hlen, Hsize, Hpar. repeat split. constructor; [reflexivity|exact Hx].
Qed.

Lemma place_vertical_again (spacing : float) (cs : list UIElement) :
  forall y0 y1,
    place_vertical spacing y0 (place_vertical spacing y1 cs)
    = place_vertical spacing y0 cs.
Proof.
  induction cs as [|c cs IH]; intros y0 y1; simpl; [reflexivity|].
  rewrite IH. reflexivity.
Qed.

Lemma place_horizontal_transpose (spacing : float) (cs : list UIElement) :
  forall current,
    place_horizontal spacing current cs
    = map transpose (place_vertical spacing current (map transpose cs)).
Proof.
  induction cs as [|c cs IH]; intros current; simpl; [reflexivity|].
  rewrite IH. destruct c as [[] ? ? ?]. reflexivity.
Qed.

Lemma heights_after_place (spacing current_y : float) (cs : list UIElement) :
  map (fun c => height (base c)) (place_vertical spacing current_y cs)
  = map (fun c => height (base c)) cs.
Proof.
  destruct (place_vertical_spec spacing cs current_y) as (_ & Hsize & _).
  apply (f_equal (map snd)) in Hsize. rewrite !map_map in Hsize. exact Hsize.
Qed.

(** X26: a vertical layout pass only moves the children: their number,
    order, sizes and parents are as before, every child ends at local
    x = 0, and running the pass a second time changes nothing more. *)
Theorem vertical_layout_only_moves (spacing : float) (cs : list UIElement) :
  let l := mkLayout VerticalLayout spacing in
  length (layout_update l cs) = length cs
  /\ map size (layout_update l cs) = map size cs
  /\ map parent (layout_update l cs) = map parent cs
  /\ Forall (fun c => x (base c) = 0%float) (layout_update l cs)
  /\ layout_update l (layout_update l cs) = layout_update l cs.
Proof.
  unfold layout_update. simpl.
  destruct cs as [|c cs]; [repeat split; constructor|].
  set (cs0 := c :: cs).
  set (y0 := (_ - _)%float).
  destruct (place_vertical_spec spacing cs0 y0) as (Hlen & Hsize & Hpar & Hx).
  split; [exact Hlen|]. split; [exact Hsize|]. split; [exact Hpar|].
  split; [exact Hx|].
  destruct (place_vertical spacing y0 cs0) as [|c' cs'] eqn:Hplaced;
    [discriminate Hlen|].
  rewrite <- Hplaced in Hlen |- *.
  rewrite heights_after_place, Hlen, place_vertical_again.
  reflexivity.
Qed.

Lemma transpose_involutive (u : UIElement) : transpose (transpose u) = u.
Proof. destruct u as [[] ? ? ?]. reflexivity. Qed.

(** X27: the horizontal layout is the vertical layout with the axes
    exchanged: laying children out horizontally gives the same result
    as exchanging x with y and width with height on every child,
    laying them out vertically, and exchanging back. *)
Theorem horizontal_layout_mirrors_vertical (spacing : float) (cs : list UIElement) :
  layout_update (mkLayout HorizontalLayout spacing) cs
  = map transpose
        (layout_update (mkLayout VerticalLayout spacing) (map transpose cs)).
Proof.
  unfold layout_update. simpl.
  destruct cs as [|c cs]; [reflexivity|].
  change (map transpose (c :: cs)) with (transpose c :: map transpose cs).
  cbv iota. rewrite place_horizontal_transpose.
  change (transpose c :: map transpose cs) with (map transpose (c :: cs)).
  rewrite length_map, map_map. reflexivity.
Qed.
End WidgetFacts.

(** ** Textures: loading, resolving, drawing *)

Section TextureFacts.
Import Sprites Resources.
Context {Surface : Type} `{Pygame Surface}.
Variable image_load : string -> result Surface.

(** X28: a texture loaded under a name is the one a sprite of that
    texture name resolves: after a successful [load_texture], a later
    [Sprite.load_texture] on a sprite attached to a scene of that
    engine sets the sprite's texture to the loaded one and its width
    and height to the texture's, also when the name was loaded before
    with another image (the latest load wins); position and every other
    field of the sprite stay. *)
Theorem loaded_texture_resolves (name path : string) (textures : gmap string Surface)
        (t : Surface) (s : Sprite Surface) :
  image_load path = Ok t ->
  texture_name s = name ->
  name <> ""%string ->
  exists textures' s',
    load_texture image_load name path textures = Ok (t, textures')
    /\ sprite_load_texture (Some (Some textures')) s = Done s'
    /\ texture s' = Some t
    /\ width (entity s') = float_of_Z (get_width t)
    /\ height (entity s') = float_of_Z (get_height t)
    /\ (x (entity s'), y (entity s')) = (x (entity s), y (entity s))
    /\ (src_rect s', flip_x s', flip_y s', color_mod s', alpha s')
       = (src_rect s, flip_x s, flip_y s, color_mod s, alpha s).
Proof.
  intros Hload Hname Hne. unfold load_texture, sprite_load_texture.
  rewrite Hload. simpl. eexists _, _. split; [reflexivity|].
  rewrite Hname. apply String.eqb_neq in Hne. rewrite Hne. simpl.
  rewrite lookup_insert_eq. split; [reflexivity|]. repeat split.
Qed.

(** X29: resolving a texture name the table does not hold is silent: it
    returns normally, leaves the sprite without texture (a texture
    resolved earlier is dropped) and with its size as it was, and the
    sprite then draws nothing.  A sprite without scene, or with an
    empty texture name, is left exactly as it is without the engine
    being looked at; a named sprite whose scene has no engine ends in
    AttributeError. *)
Theorem unresolved_texture_is_silent (textures : gmap string Surface)
        (engine : option (gmap string Surface)) (s : Sprite Surface) :
  (texture_name s <> ""%string ->
   textures !! texture_name s = None ->
   exists s', sprite_load_texture (Some (Some textures)) s = Done s'
              /\ texture s' = None
              /\ entity s' = entity s
              /\ render s' = Ok None)
  /\ sprite_load_texture None s = Done s
  /\ (texture_name s = ""%string -> sprite_load_texture (Some engine) s = Done s)
  /\ (texture_name s <> ""%string ->
      sprite_load_texture (Some None) s = AttributeError).
Proof.
  unfold sprite_load_texture. split; [|split; [reflexivity|split]].
  - intros Hne Hmiss. apply String.eqb_neq in Hne. rewrite Hne, Hmiss. simpl.
    eexists. split; [reflexivity|]. split; [reflexivity|]. split; [reflexivity|].
    unfold render. simpl. destruct (visible (entity s)); reflexivity.
  - intros ->. reflexivity.
  - intros Hne. apply String.eqb_neq in Hne. rewrite Hne. reflexivity.
Qed.

(** X30: [render] draws nothing and cannot fail for a sprite that is
    invisible or has no texture, whatever its other fields hold.  For a
    visible, textured sprite whose image pipeline succeeds, a position
    that is not finite makes it raise instead of drawing: ValueError
    for a NaN abscissa, OverflowError for an infinite one. *)
Theorem render_edge_cases (s : Sprite Surface) :
  (visible (entity s) = false \/ texture s = None -> render s = Ok None)
  /\ (forall t img,
        visible (entity s) = true -> texture s = Some t ->
        transformed s t = Ok img ->
        (x (entity s) = nan -> render s = Raise ValueError)
        /\ (x (entity s) = infinity \/ x (entity s) = neg_infinity ->
            render s = Raise OverflowError)).
Proof.
  unfold render. split.
  - intros [Hvis|Htex].
    + rewrite Hvis. reflexivity.
    + rewrite Htex. destruct (visible (entity s)); reflexivity.
  - intros t img Hvis Htex Himg. rewrite Hvis, Htex. simpl. rewrite Himg. simpl.
    split.
    + intros ->. reflexivity.
    + intros [->| ->]; reflexivity.
Qed.
End TextureFacts.

(** A 16 by 24 image loaded as "hero" and resolved by the plain sprite. *)
Lemma loaded_texture_resolves_witness :
  exists textures' s',
    Resources.load_texture (fun _ => Ok (16, 24)) "hero" "hero.png" ∅
    = Ok ((16, 24), textures')
    /\ Resources.sprite_load_texture (Some (Some textures')) (Sprites.plain_sprite 1 2)
       = Resources.Done s'
    /\ Sprites.texture s' = Some (16, 24)
    /\ width (Sprites.entity s') = 16%float
    /\ height (Sprites.entity s') = 24%float.
Proof.
  destruct (loaded_texture_resolves (fun _ => Ok (16, 24)) "hero" "hero.png" ∅
              (16, 24) (Sprites.plain_sprite 1 2) eq_refl eq_refl
              ltac:(discriminate))
    as (textures' & s' & Hload & Hres & Htex & Hw & Hh & _).
  exists textures', s'. rewrite Hw, Hh. repeat split; assumption || reflexivity.
Defined.
